(** * Arithmetic Machine: a shallow embedding of [main.c]

    The machine of [main.c] is a stack of doubles, two registers and a
    program counter over a byte buffer.  The C code performs no bounds check
    at all: [PUSH], [POP] and [NCODE] index their arrays directly.  An access
    outside an array is undefined behaviour in C; the embedding stops there
    with the outcome [Undef], which is not a value the C function returns.

    - [double] is IEEE-754 binary64, embedded as Rocq's primitive [float],
      with arithmetic rounded to nearest even in that format (as SSE2 does);
      all NaNs are one value here (sign and payload of a NaN are not kept).
    - [malloc] is taken to succeed; what it returns is not initialised.
    - [int] is 32 bits; [pc] and [sp] are kept in [Z], with the overflow of
      [++]/[--] (undefined) and the conversion after [pc += sizeof(double)]
      (wrap-around) written out.
    - [memcpy] copies the operand bytes in the byte order of the host, which
      is a parameter ([endianness]) of the embedding.
    - What [printf] writes is kept as a list of events. *)

From Stdlib Require Import ZArith List Floats Strings.Byte Lia Bool.
From stdpp Require Import base list.
Import ListNotations.

Local Open Scope Z_scope.

(** ** Constants and opcodes *)

Definition STACK_SIZE : nat := 256.

Definition EXIT_SUCCESS : Z := 0.
Definition EXIT_FAILURE : Z := 1.

Definition INT_MIN : Z := -2147483648.
Definition INT_MAX : Z := 2147483647.

Module Op.
Definition HALT      : Z := 0x00.
Definition DCONST_M1 : Z := 0x0A.
Definition DCONST_0  : Z := 0x0B.
Definition DCONST_1  : Z := 0x0C.
Definition DCONST_2  : Z := 0x0D.
Definition DCONST    : Z := 0x0F.
Definition ADD       : Z := 0x60.
Definition SUB       : Z := 0x61.
Definition MUL       : Z := 0x62.
Definition DIV       : Z := 0x64.
Definition NEG       : Z := 0x70.
Definition NOP       : Z := 0xF0.
Definition PRINT     : Z := 0xF2.
Definition ST1       : Z := 0xF4.
Definition LD1       : Z := 0xF5.
Definition ST2       : Z := 0xF6.
Definition LD2       : Z := 0xF7.
End Op.

(** ** Integers and bytes *)

(** Conversion of an out-of-range value to [int] (two's complement wrap). *)
Definition to_int (z : Z) : Z := (z - INT_MIN) mod 2 ^ 32 + INT_MIN.

(** A [char] read as [unsigned char]. *)
Definition uchar (b : byte) : Z := Z.of_N (Byte.to_N b).

(** [a[i]] for a C array held as a list: [None] outside the array. *)
Definition index {A : Type} (a : list A) (i : Z) : option A :=
  if i <? 0 then None else a !! Z.to_nat i.

(** The [n] bytes of [a] from offset [i] on, if they are all inside [a]. *)
Fixpoint read_bytes (a : list byte) (i : Z) (n : nat) : option (list byte) :=
  match n with
  | O => Some []
  | S n' =>
      match index a i, read_bytes a (i + 1) n' with
      | Some b, Some bs => Some (b :: bs)
      | _, _ => None
      end
  end.

(** ** Doubles *)

Inductive endianness := LittleEndian | BigEndian.

(** The integer held by [bs], first byte least significant. *)
Fixpoint le_bits (bs : list byte) : Z :=
  match bs with
  | [] => 0
  | b :: bs' => Z.lor (uchar b) (Z.shiftl (le_bits bs') 8)
  end.

(** The 64-bit pattern a host of the given byte order sees in 8 bytes of
    memory read from the lowest address up. *)
Definition bits_of_bytes (host : endianness) (bs : list byte) : Z :=
  match host with
  | LittleEndian => le_bits bs
  | BigEndian => le_bits (rev bs)
  end.

(** IEEE-754 binary64: sign in bit 63, biased exponent in bits 62..52,
    fraction in bits 51..0. *)
Definition spec_of_bits (x : Z) : spec_float :=
  let s := Z.testbit x 63 in
  let e := Z.land (Z.shiftr x 52) 0x7FF in
  let m := Z.land x (2 ^ 52 - 1) in
  if e =? 0 then
    match m with
    | Zpos p => S754_finite s p (-1074)
    | _ => S754_zero s
    end
  else if e =? 0x7FF then
    if m =? 0 then S754_infinity s else S754_nan
  else
    match m + 2 ^ 52 with
    | Zpos p => S754_finite s p (e - 1075)
    | _ => S754_nan
    end.

Definition double_of_bits (x : Z) : float := SF2Prim (spec_of_bits x).

(** [memcpy(&b, p, sizeof(double))] over the 8 bytes [bs] at [p]. *)
Definition memcpy_double (host : endianness) (bs : list byte) : float :=
  double_of_bits (bits_of_bytes host bs).

(** ** The machine *)

Record VM := mkVM {
  r1 : float;           (* registers *)
  r2 : float;
  code : list byte;     (* the bytecode array *)
  stack : list float;   (* the stack array *)
  pc : Z;               (* program counter *)
  sp : Z                (* stack pointer *)
}.

Definition set_r1 (vm : VM) (v : float) : VM :=
  mkVM v (r2 vm) (code vm) (stack vm) (pc vm) (sp vm).
Definition set_r2 (vm : VM) (v : float) : VM :=
  mkVM (r1 vm) v (code vm) (stack vm) (pc vm) (sp vm).
Definition set_pc (vm : VM) (i : Z) : VM :=
  mkVM (r1 vm) (r2 vm) (code vm) (stack vm) i (sp vm).
Definition set_sp (vm : VM) (i : Z) : VM :=
  mkVM (r1 vm) (r2 vm) (code vm) (stack vm) (pc vm) i.
Definition set_slot (vm : VM) (i : Z) (v : float) : VM :=
  mkVM (r1 vm) (r2 vm) (code vm) (<[Z.to_nat i := v]> (stack vm)) (pc vm) (sp vm).

(** [malloc(sizeof(double) * n)]: [n] slots of indeterminate content, given
    by [junk]. *)
Definition malloc_doubles (n : nat) (junk : nat -> float) : list float :=
  map junk (seq 0 n).

Definition newVM (code : list byte) (junk : nat -> float) : VM :=
  {| r1 := 0%float; r2 := 0%float;
     code := code;
     stack := malloc_doubles STACK_SIZE junk;
     pc := 0; sp := -1 |}.

(** What the program writes on standard output, one event per [printf]. *)
Inductive event :=
  | PrintDouble (a : float)             (* "%lf\n" *)
  | DividingByZeroError (opcode : Z)    (* "DividingByZeroError %x\n" *)
  | InvalidOpcodeError (opcode : Z).    (* "InvalidOpcodeError: %x\n" *)

(** Where the C code leaves defined behaviour. *)
Inductive fault :=
  | StackOutOfBounds (i : Z)            (* stack[i] outside the stack array *)
  | CodeOutOfBounds (i : Z) (n : nat)   (* n bytes at code[i] not all inside *)
  | IntOverflow.                        (* ++ on an int equal to INT_MAX *)

(** State, output and undefined behaviour in one monad. *)
Inductive res (A : Type) :=
  | Ok (a : A) (vm : VM) (out : list event)
  | Undef (f : fault) (out : list event).
Arguments Ok {A} a vm out.
Arguments Undef {A} f out.

Definition M (A : Type) : Type := VM -> res A.

Definition ret {A} (a : A) : M A := fun vm => Ok a vm [].

Definition bind {A B} (m : M A) (k : A -> M B) : M B := fun vm =>
  match m vm with
  | Ok a vm1 out1 =>
      match k a vm1 with
      | Ok b vm2 out2 => Ok b vm2 (out1 ++ out2)
      | Undef f out2 => Undef f (out1 ++ out2)
      end
  | Undef f out1 => Undef f out1
  end.

Declare Scope vm_scope.
Delimit Scope vm_scope with vm.
Notation "x <- m ;; k" := (bind m (fun x => k))
  (at level 100, m at next level, right associativity) : vm_scope.
Notation "m ;; k" := (bind m (fun _ => k))
  (at level 100, right associativity) : vm_scope.
Local Open Scope vm_scope.

Definition printf (e : event) : M unit := fun vm => Ok tt vm [e].

(** [vm->stack[++vm->sp] = v] *)
Definition PUSH (v : float) : M unit := fun vm =>
  if INT_MAX <=? sp vm then Undef IntOverflow []
  else
    let i := sp vm + 1 in
    match index (stack vm) i with
    | None => Undef (StackOutOfBounds i) []
    | Some _ => Ok tt (set_slot (set_sp vm i) i v) []
    end.

(** [vm->stack[vm->sp--]]; the decrement cannot overflow where the read is
    inside the array. *)
Definition POP : M float := fun vm =>
  match index (stack vm) (sp vm) with
  | None => Undef (StackOutOfBounds (sp vm)) []
  | Some v => Ok v (set_sp vm (sp vm - 1)) []
  end.

(** [vm->code[vm->pc++]] *)
Definition NCODE : M byte := fun vm =>
  match index (code vm) (pc vm) with
  | None => Undef (CodeOutOfBounds (pc vm) 1) []
  | Some b =>
      if INT_MAX <=? pc vm then Undef IntOverflow []
      else Ok b (set_pc vm (pc vm + 1)) []
  end.

(** [memcpy(&b, &vm->code[vm->pc], sizeof(double))] *)
Definition memcpy_code (host : endianness) : M float := fun vm =>
  match read_bytes (code vm) (pc vm) 8 with
  | None => Undef (CodeOutOfBounds (pc vm) 8) []
  | Some bs => Ok (memcpy_double host bs) vm []
  end.

(** [vm->pc += sizeof(double)]: the sum is computed in [size_t] and converted
    back to [int]. *)
Definition skip_double : M unit := fun vm => Ok tt (set_pc vm (to_int (pc vm + 8))) [].

Definition store_r1 (v : float) : M unit := fun vm => Ok tt (set_r1 vm v) [].
Definition store_r2 (v : float) : M unit := fun vm => Ok tt (set_r2 vm v) [].
Definition load_r1 : M float := fun vm => Ok (r1 vm) vm [].
Definition load_r2 : M float := fun vm => Ok (r2 vm) vm [].

(** How a [case] of the [switch] ends. *)
Inductive control :=
  | Break
  | Return (status : Z).

(** The body of the [switch] in [run], for the opcode just fetched. *)
Definition instr (host : endianness) (opcode : Z) : M control :=
  if opcode =? Op.HALT then ret (Return EXIT_SUCCESS)
  else if opcode =? Op.NOP then ret Break
  else if opcode =? Op.DCONST_M1 then PUSH (-1)%float ;; ret Break
  else if opcode =? Op.DCONST_0 then PUSH 0%float ;; ret Break
  else if opcode =? Op.DCONST_1 then PUSH 1%float ;; ret Break
  else if opcode =? Op.DCONST_2 then PUSH 2%float ;; ret Break
  else if opcode =? Op.DCONST then
    b <- memcpy_code host ;; skip_double ;; PUSH b ;; ret Break
  else if opcode =? Op.ADD then
    b <- POP ;; a <- POP ;; PUSH (a + b)%float ;; ret Break
  else if opcode =? Op.MUL then
    b <- POP ;; a <- POP ;; PUSH (a * b)%float ;; ret Break
  else if opcode =? Op.SUB then
    b <- POP ;; a <- POP ;; PUSH (a - b)%float ;; ret Break
  else if opcode =? Op.DIV then
    b <- POP ;; a <- POP ;;
    if (b =? 0)%float then
      printf (DividingByZeroError opcode) ;; ret (Return EXIT_FAILURE)
    else PUSH (a / b)%float ;; ret Break
  else if opcode =? Op.NEG then
    b <- POP ;; PUSH (- b)%float ;; ret Break
  else if opcode =? Op.LD1 then
    v <- load_r1 ;; PUSH v ;; ret Break
  else if opcode =? Op.ST1 then
    b <- POP ;; store_r1 b ;; ret Break
  else if opcode =? Op.LD2 then
    v <- load_r2 ;; PUSH v ;; ret Break
  else if opcode =? Op.ST2 then
    b <- POP ;; store_r2 b ;; ret Break
  else if opcode =? Op.PRINT then
    a <- POP ;; printf (PrintDouble a) ;; ret Break
  else
    printf (InvalidOpcodeError opcode) ;; ret (Return EXIT_FAILURE).

(** One turn of the [for (;;)] loop: fetch, then the [switch]. *)
Definition step (host : endianness) : M control :=
  b <- NCODE ;; instr host (uchar b).

(** How far [run] got. *)
Inductive result :=
  | Exit (status : Z)       (* run returned *)
  | Undefined (f : fault)   (* run left defined behaviour *)
  | Running.                (* the loop was still turning when fuel ran out *)

Record outcome := mkOutcome {
  result_of : result;
  output : list event;      (* everything printed *)
  machine : VM;             (* the machine as run left it *)
  decoded : nat             (* opcodes fetched *)
}.

(** [run]: the loop, for at most [fuel] turns. *)
Fixpoint run (host : endianness) (fuel : nat) (vm : VM) : outcome :=
  match fuel with
  | O => mkOutcome Running [] vm 0
  | S fuel' =>
      match NCODE vm with
      | Undef f out => mkOutcome (Undefined f) out vm 0
      | Ok b vm1 out1 =>
          match instr host (uchar b) vm1 with
          | Undef f out2 => mkOutcome (Undefined f) (out1 ++ out2) vm1 1
          | Ok (Return status) vm2 out2 =>
              mkOutcome (Exit status) (out1 ++ out2) vm2 1
          | Ok Break vm2 out2 =>
              let o := run host fuel' vm2 in
              mkOutcome (result_of o) (out1 ++ out2 ++ output o) (machine o)
                        (S (decoded o))
          end
      end
  end.

(** [run] on a fresh machine, with one turn more than the code has bytes. *)
Definition execute (host : endianness) (code : list byte) (junk : nat -> float)
  : outcome :=
  run host (S (length code)) (newVM code junk).

(** ** What the caller is told

    The results the specification names, and which of them the caller of
    [run] can tell from the exit status and the last line printed. *)

Inductive error_kind :=
  | InvalidOpcode (opcode : Z)
  | UnexpectedEndOfCode
  | StackUnderflow
  | StackOverflow
  | DivisionByZero.

Inductive ExecutionResult :=
  | Halted
  | RuntimeError (kind : error_kind).

Definition report (o : outcome) : option ExecutionResult :=
  match result_of o with
  | Exit status =>
      if status =? EXIT_SUCCESS then Some Halted
      else
        match last (output o) with
        | Some (DividingByZeroError _) => Some (RuntimeError DivisionByZero)
        | Some (InvalidOpcodeError opcode) => Some (RuntimeError (InvalidOpcode opcode))
        | _ => None
        end
  | Undefined _ => None
  | Running => None
  end.

(** The sample programs of [main]. *)
Definition bytecode  : list byte := [x0d; x0c; x61; xf2; x00].
Definition bytecode2 : list byte := [x0f; x3f; xf0; x00; x00; x00; x00; x00; x00; xf2; x00].
Definition bytecode3 : list byte := [x0f; x00; x00; x00; x00; x00; x00; xf0; x3f; xf2; x00].
Definition bytecode4 : list byte := [x0d; xf4; x0a; xf5; x64; xf2; x00].

Definition no_junk : nat -> float := fun _ => 0%float.

(** ** Vocabulary of the statements *)

(** The stack as [newVM] allocates it, with at least two values on it. *)
Definition two_on_stack (vm : VM) (a b : float) : Prop :=
  length (stack vm) = STACK_SIZE /\
  index (stack vm) (sp vm - 1) = Some a /\
  index (stack vm) (sp vm) = Some b.

(** What a binary operation leaves: both operands gone, [v] in their place. *)
Definition replaced2 (vm : VM) (v : float) : VM :=
  mkVM (r1 vm) (r2 vm) (code vm)
       (<[Z.to_nat (sp vm - 1) := v]> (stack vm)) (pc vm) (sp vm - 1).

(** A machine about to fetch the byte [b]. *)
Definition fetches (vm : VM) (b : byte) : Prop :=
  index (code vm) (pc vm) = Some b /\ pc vm < INT_MAX.

(** The number of values on the operand stack. *)
Definition depth (vm : VM) : Z := sp vm + 1.

(** The machine after [DCONST_1, DCONST_0], about to fetch [DIV]. *)
Definition vm_1_0 : VM :=
  machine (run LittleEndian 2 (newVM [x0c; x0b; x64; xf2; x00] no_junk)).

(** The machine after [DCONST_2, DCONST_1], about to fetch [DIV]. *)
Definition vm_2_1 : VM :=
  machine (run LittleEndian 2 (newVM [x0d; x0c; x64; xf2; x00] no_junk)).

(** The case of [opcode] ends with [v] pushed in place of the two operands. *)
Definition pushes_result (host : endianness) (opcode : Z) (vm : VM) (v : float)
  : Prop :=
  instr host opcode vm = Ok Break (replaced2 vm v) [].

(** The opcodes whose case starts with a push, and those whose case starts
    with a pop.  [DCONST] pushes after reading its operand. *)
Definition push_opcodes : list Z :=
  [Op.DCONST_M1; Op.DCONST_0; Op.DCONST_1; Op.DCONST_2; Op.LD1; Op.LD2].
Definition pop_opcodes : list Z :=
  [Op.ADD; Op.SUB; Op.MUL; Op.DIV; Op.NEG; Op.ST1; Op.ST2; Op.PRINT].

(** The stack array as [newVM] allocates it, holding [n] values. *)
Definition holds (vm : VM) (n : Z) : Prop :=
  length (stack vm) = STACK_SIZE /\ depth vm = n.

(** The fresh machine, and the machine after 256 [DCONST_1]. *)
Definition vm_empty : VM := newVM [x60] no_junk.
Definition vm_full : VM :=
  machine (run LittleEndian 256 (newVM (repeat x0c 257) no_junk)).

(** The machine after [NOP] in a program of that byte alone, and the machine
    that has fetched a [DCONST] followed by two bytes. *)
Definition vm_at_end : VM := machine (run LittleEndian 1 (newVM [xf0] no_junk)).
Definition vm_short : VM := set_pc (newVM [x0f; x3f; xf0] no_junk) 1.

(** The fresh machine of [bytecode3], its [DCONST] fetched. *)
Definition vm_dconst : VM := set_pc (newVM bytecode3 no_junk) 1.

(** The case [m] leaves the component [f] of the machine as it was. *)
Definition keeps {T A} (f : VM -> T) (m : M A) : Prop :=
  forall vm a vm' out, m vm = Ok a vm' out -> f vm' = f vm.

(** [f] does not look at the stack or the stack pointer. *)
Definition stack_blind {T} (f : VM -> T) : Prop :=
  forall vm s i, f (mkVM (r1 vm) (r2 vm) (code vm) s (pc vm) i) = f vm.

(** The machine of [bytecode4] after [DCONST_2], about to fetch [ST1], and
    after [DCONST_2, ST1, DCONST_M1], about to fetch [LD1]. *)
Definition vm_before_st1 : VM := machine (run LittleEndian 1 (newVM bytecode4 no_junk)).
Definition vm_before_ld1 : VM := machine (run LittleEndian 3 (newVM bytecode4 no_junk)).

(** Bytes of code from the program counter on; none when it is negative. *)
Definition remaining (vm : VM) : nat :=
  if pc vm <? 0 then O else Z.to_nat (Z.of_nat (length (code vm)) - pc vm).

(** Two machines that differ at most in the stack slots above the stack
    pointer. *)
Definition agree (vm1 vm2 : VM) : Prop :=
  r1 vm1 = r1 vm2 /\ r2 vm1 = r2 vm2 /\ code vm1 = code vm2 /\
  pc vm1 = pc vm2 /\ sp vm1 = sp vm2 /\
  length (stack vm1) = length (stack vm2) /\
  forall i, 0 <= i <= sp vm1 -> index (stack vm1) i = index (stack vm2) i.

Definition res_agree {A} (x y : res A) : Prop :=
  match x, y with
  | Ok a vm out, Ok a' vm' out' => a = a' /\ agree vm vm' /\ out = out'
  | Undef f out, Undef f' out' => f = f' /\ out = out'
  | _, _ => False
  end.

Definition M_agree {A} (m : M A) : Prop :=
  forall vm1 vm2, agree vm1 vm2 -> res_agree (m vm1) (m vm2).

(** The bytes the [switch] of [run] has a case for. *)
Definition opcodes : list Z :=
  [Op.HALT; Op.NOP; Op.DCONST_M1; Op.DCONST_0; Op.DCONST_1; Op.DCONST_2;
   Op.DCONST; Op.ADD; Op.MUL; Op.SUB; Op.DIV; Op.NEG; Op.LD1; Op.ST1;
   Op.LD2; Op.ST2; Op.PRINT].

(** The opcodes that pop two values and push one. *)
Definition binary_opcodes : list Z := [Op.ADD; Op.SUB; Op.MUL; Op.DIV].

(** By how much a case that ends in [break] moves the stack pointer. *)
Definition stack_effect (opcode : Z) : Z :=
  if existsb (Z.eqb opcode) (Op.DCONST :: push_opcodes) then 1
  else if existsb (Z.eqb opcode)
            (binary_opcodes ++ [Op.ST1; Op.ST2; Op.PRINT]) then -1
  else 0.

(** How many values the case of an opcode pops. *)
Definition operands (opcode : Z) : Z :=
  if existsb (Z.eqb opcode) binary_opcodes then 2
  else if existsb (Z.eqb opcode) [Op.NEG; Op.ST1; Op.ST2; Op.PRINT] then 1
  else 0.

(** The opcodes whose case writes a stack slot. *)
Definition writing_opcodes : list Z :=
  Op.DCONST :: Op.NEG :: push_opcodes ++ binary_opcodes.

(** The machine of [bytecode] after [DCONST_2], about to fetch [DCONST_1]. *)
Definition vm_one_value : VM := machine (run LittleEndian 1 (newVM bytecode no_junk)).

(** The machine of [bytecode] after [DCONST_2, DCONST_1, SUB], about to fetch
    [PRINT]. *)
Definition vm_before_print : VM := machine (run LittleEndian 3 (newVM bytecode no_junk)).

(** A machine whose stack array is as [newVM] allocates it, with the stack
    pointer inside it or just below, running the code [prog]. *)
Definition in_bounds (prog : list byte) (vm : VM) : Prop :=
  code vm = prog /\
  length (stack vm) = STACK_SIZE /\
  0 <= depth vm <= 256 /\
  (Z.of_nat (length prog) <= INT_MAX -> 0 <= pc vm <= Z.of_nat (length prog)).

(** [run] has not left defined behaviour. *)
Definition defined (o : outcome) : Prop :=
  forall f, result_of o <> Undefined f.

(** What a monadic operation printed, whether it ended well or not. *)
Definition out_of {A} (r : res A) : list event :=
  match r with
  | Ok _ _ out => out
  | Undef _ out => out
  end.

(** The case [m] prints no value. *)
Definition quiet {A} (m : M A) : Prop :=
  forall vm a, ~ In (PrintDouble a) (out_of (m vm)).

(** The case of [opcode] runs to its end on [vm] (to a [break] or a
    [return]) without leaving defined behaviour. *)
Definition runs_through (host : endianness) (opcode : Z) (vm : VM) : Prop :=
  exists c vm' out, instr host opcode vm = Ok c vm' out.

(** What the case of [opcode] needs: its operands on the stack, a free slot if
    it pushes more than it pops, and for [DCONST] the 8 operand bytes. *)
Definition has_what_it_needs (opcode : Z) (vm : VM) : Prop :=
  operands opcode <= depth vm /\
  (stack_effect opcode = 1 -> depth vm < 256) /\
  (opcode = Op.DCONST -> is_Some (read_bytes (code vm) (pc vm) 8)).

(** The machine [vm] over another code buffer. *)
Definition with_code (vm : VM) (c : list byte) : VM :=
  mkVM (r1 vm) (r2 vm) c (stack vm) (pc vm) (sp vm).

(** [run] has not read outside its code buffer. *)
Definition inside_code (o : outcome) : Prop :=
  forall i n, result_of o <> Undefined (CodeOutOfBounds i n).

(** [y] is what [x] becomes when [rest] is appended to the code, unless [x]
    ran off the end of the code. *)
Definition ext_res {A} (rest : list byte) (x y : res A) : Prop :=
  match x with
  | Ok a vm out => y = Ok a (with_code vm (code vm ++ rest)) out
  | Undef (CodeOutOfBounds _ _) _ => True
  | Undef f out => y = Undef f out
  end.

Definition M_ext {A} (rest : list byte) (m : M A) : Prop :=
  forall vm, ext_res rest (m vm) (m (with_code vm (code vm ++ rest))).

(** The loop of [run] on [vm], with a turn more than the code has bytes. *)
Definition run_machine (host : endianness) (vm : VM) : outcome :=
  run host (S (length (code vm))) vm.

(** ** The machines of [main] on the heap

    [newVM] obtains the machine and its stack array from [malloc], [delVM]
    gives them back to [free], and [run] works on the machine through a
    pointer.  The heap is a list of blocks in the order of their allocation;
    every [malloc] makes a new block, and a block that was freed stays freed:
    a pointer to it dangles, and using it is undefined behaviour. *)

Module Heap.

Abbreviation block := nat.

(** The [VM] struct as it lies in memory: [stack] is a pointer. *)
Record VMstruct := mkStruct {
  f_r1 : float;
  f_r2 : float;
  f_code : list byte;
  f_stack : block;
  f_pc : Z;
  f_sp : Z
}.

Inductive object :=
  | Raw                          (* memory fresh from malloc *)
  | Machine (s : VMstruct)       (* an initialised VM struct *)
  | Doubles (a : list float).    (* an array of doubles *)

(** A block is [Some] object while allocated and [None] once freed. *)
Abbreviation heap := (list (option object)).

Inductive hfault :=
  | Dangling (p : block)   (* access through, or free of, a pointer to no live block *)
  | InRun (r : result).    (* run did not return *)

Inductive hres (A : Type) :=
  | HOk (a : A) (h : heap) (out : list event)
  | HUndef (why : hfault) (out : list event).
Arguments HOk {A} a h out.
Arguments HUndef {A} why out.

Definition H (A : Type) : Type := heap -> hres A.

Definition hret {A} (a : A) : H A := fun h => HOk a h [].

Definition hbind {A B} (m : H A) (k : A -> H B) : H B := fun h =>
  match m h with
  | HOk a h1 out1 =>
      match k a h1 with
      | HOk b h2 out2 => HOk b h2 (out1 ++ out2)
      | HUndef why out2 => HUndef why (out1 ++ out2)
      end
  | HUndef why out1 => HUndef why out1
  end.

Definition malloc (o : object) : H block := fun h =>
  HOk (length h) (h ++ [Some o]) [].

Definition free (p : block) : H unit := fun h =>
  match h !! p with
  | Some (Some _) => HOk tt (<[p := None]> h) []
  | _ => HUndef (Dangling p) []
  end.

Definition store (p : block) (o : object) : H unit := fun h =>
  match h !! p with
  | Some (Some _) => HOk tt (<[p := Some o]> h) []
  | _ => HUndef (Dangling p) []
  end.

Definition load_machine (p : block) : H VMstruct := fun h =>
  match h !! p with
  | Some (Some (Machine s)) => HOk s h []
  | _ => HUndef (Dangling p) []
  end.

Definition load_doubles (p : block) : H (list float) := fun h =>
  match h !! p with
  | Some (Some (Doubles a)) => HOk a h []
  | _ => HUndef (Dangling p) []
  end.

Definition print (out : list event) : H unit := fun h => HOk tt h out.

Declare Scope heap_scope.
Notation "x <- m ;; k" := (hbind m (fun x => k))
  (at level 100, m at next level, right associativity) : heap_scope.
Notation "m ;; k" := (hbind m (fun _ => k))
  (at level 100, right associativity) : heap_scope.
Local Open Scope heap_scope.

Definition stop {A} (why : hfault) (out : list event) : H A := fun h =>
  HUndef why out.

(** [newVM]: the struct is allocated first, then the stack array; the fields
    are written once both are there. *)
Definition newVM (code : list byte) (junk : nat -> float) : H block :=
  vm <- malloc Raw ;;
  q <- malloc (Doubles (malloc_doubles STACK_SIZE junk)) ;;
  store vm (Machine (mkStruct 0%float 0%float code q 0 (-1))) ;;
  hret vm.

(** [delVM]: [free(vm->stack); free(vm);] *)
Definition delVM (vm : block) : H unit :=
  s <- load_machine vm ;;
  free (f_stack s) ;;
  free vm.

(** The machine behind a pointer, with its stack array. *)
Definition view (s : VMstruct) (a : list float) : VM :=
  mkVM (f_r1 s) (f_r2 s) (f_code s) a (f_pc s) (f_sp s).

Definition struct_of (vm : VM) (q : block) : VMstruct :=
  mkStruct (r1 vm) (r2 vm) (code vm) q (pc vm) (sp vm).

(** [run(vm)]: the loop of [run] on the machine behind [vm], whose struct and
    stack array are left as the loop leaves them. *)
Definition run (host : endianness) (vm : block) : H Z :=
  s <- load_machine vm ;;
  a <- load_doubles (f_stack s) ;;
  let o := run_machine host (view s a) in
  match result_of o with
  | Exit status =>
      store vm (Machine (struct_of (machine o) (f_stack s))) ;;
      store (f_stack s) (Doubles (stack (machine o))) ;;
      print (output o) ;;
      hret status
  | r => stop (InRun r) (output o)
  end.

(** [main]: the four sample programs, one machine each.  After the third run
    it is [vm], not [vm3], that is deleted. *)
Definition main (host : endianness) (junk : nat -> nat -> float) : H Z :=
  vm <- newVM bytecode (junk 0%nat) ;;
  exit_status <- run host vm ;;
  delVM vm ;;
  vm2 <- newVM bytecode2 (junk 1%nat) ;;
  run host vm2 ;;
  delVM vm2 ;;
  vm3 <- newVM bytecode3 (junk 2%nat) ;;
  run host vm3 ;;
  delVM vm ;;
  vm4 <- newVM bytecode4 (junk 3%nat) ;;
  run host vm4 ;;
  delVM vm4 ;;
  hret exit_status.

(** The blocks of [h] that are allocated. *)
Definition live (h : heap) (p : block) : Prop :=
  exists o, h !! p = Some (Some o).

End Heap.

(** [r] with [out] printed before it. *)
Definition after_output {A} (out : list event) (r : Heap.hres A) : Heap.hres A :=
  match r with
  | Heap.HOk a h out' => Heap.HOk a h (out ++ out')
  | Heap.HUndef why out' => Heap.HUndef why (out ++ out')
  end.

(** A machine made, run and deleted, the exit status of its run returned. *)
Definition lifetime (host : endianness) (prog : list byte) (junk : nat -> float)
  : Heap.H Z :=
  Heap.hbind (Heap.newVM prog junk) (fun vm =>
  Heap.hbind (Heap.run host vm) (fun status =>
  Heap.hbind (Heap.delVM vm) (fun _ =>
  Heap.hret status))).

(** The byte [run] decoded last: the one before the program counter. *)
Definition last_fetched (vm : VM) : option byte :=
  index (code vm) (pc vm - 1).

(** How a run that returned came to return. *)
Definition return_cause (o : outcome) (status : Z) : Prop :=
  (status = EXIT_SUCCESS /\ last_fetched (machine o) = Some x00 /\
   report o = Some Halted) \/
  (status = EXIT_FAILURE /\ last_fetched (machine o) = Some x64 /\
   report o = Some (RuntimeError DivisionByZero)) \/
  (status = EXIT_FAILURE /\
   exists b, last_fetched (machine o) = Some b /\ ~ In (uchar b) opcodes /\
             report o = Some (RuntimeError (InvalidOpcode (uchar b)))).

(** The bytes of [prog] alone fix what a run of them on a fresh machine
    prints and what the caller is told, whatever the machine finds in its
    newly allocated stack array. *)
Definition determined (host : endianness) (prog : list byte) : Prop :=
  exists out r, forall junk,
    output (execute host prog junk) = out /\
    report (execute host prog junk) = Some r.

(** * Properties *)

(** ** Decoding doubles *)

Example double_one_le :
  memcpy_double LittleEndian [x00; x00; x00; x00; x00; x00; xf0; x3f] = 1%float.
Proof. reflexivity. Qed.

Example double_m_half_be :
  memcpy_double BigEndian [xbf; xe0; x00; x00; x00; x00; x00; x00] = (-0.5)%float.
Proof. reflexivity. Qed.

Example double_of_bits_samples :
  double_of_bits 0x4000000000000000 = 2%float /\
  double_of_bits 0x3FE8000000000000 = 0.75%float /\
  double_of_bits 0x8000000000000000 = (-0)%float /\
  double_of_bits 0x7FF0000000000000 = infinity /\
  double_of_bits 0xFFF0000000000000 = neg_infinity /\
  double_of_bits 0x7FF8000000000000 = nan /\
  double_of_bits 0x0000000000000001 = 0x1p-1074%float /\
  double_of_bits 0x7FEFFFFFFFFFFFFF = 0x1.fffffffffffffp+1023%float.
Proof. repeat split; reflexivity. Qed.

(** [!b] on a double: true for both zeros, false for a NaN. *)
Example zero_test_samples :
  (0 =? 0)%float = true /\ (-0 =? 0)%float = true /\
  (nan =? 0)%float = false /\ (0x1p-1074 =? 0)%float = false.
Proof. repeat split; reflexivity. Qed.

(** ** Arrays and bytes *)

Lemma index_Some_iff {A} (a : list A) (i : Z) (x : A) :
  index a i = Some x <-> 0 <= i /\ a !! Z.to_nat i = Some x.
Proof.
  unfold index. destruct (Z.ltb_spec i 0); split.
  - discriminate.
  - intros [? _]. lia.
  - auto.
  - tauto.
Qed.

Lemma index_None_iff {A} (a : list A) (i : Z) :
  index a i = None <-> i < 0 \/ Z.of_nat (length a) <= i.
Proof.
  unfold index. destruct (Z.ltb_spec i 0).
  - split; auto.
  - rewrite lookup_ge_None. lia.
Qed.

Lemma index_is_Some {A} (a : list A) (i : Z) :
  is_Some (index a i) <-> 0 <= i < Z.of_nat (length a).
Proof.
  rewrite <- not_eq_None_Some, index_None_iff. lia.
Qed.

Lemma uchar_range (b : byte) : 0 <= uchar b < 256.
Proof.
  unfold uchar. pose proof (Byte.to_N_bounded b) as H.
  lia.
Qed.

Lemma read_bytes_None (a : list byte) (n : nat) (i : Z) :
  n <> O ->
  (read_bytes a i n = None <-> i < 0 \/ Z.of_nat (length a) < i + Z.of_nat n).
Proof.
  revert i. induction n as [|n IH]; intros i Hn; [congruence|].
  cbn [read_bytes].
  destruct (index a i) as [b|] eqn:Hb.
  - assert (Hi : 0 <= i < Z.of_nat (length a)) by (apply index_is_Some; eauto).
    destruct n as [|n'].
    + cbn. split; [discriminate | lia].
    + specialize (IH (i + 1) ltac:(discriminate)).
      destruct (read_bytes a (i + 1) (S n')).
      * split; [discriminate|]. intros H.
        assert (Some l = None) by (apply IH; lia). discriminate.
      * split; [|reflexivity]. intros _.
        destruct IH as [IH _]. specialize (IH eq_refl). lia.
  - apply index_None_iff in Hb. split; [|reflexivity]. lia.
Qed.

(** ** The monad and its primitive operations *)

Lemma bind_Ok_nil {A B} (m : M A) (k : A -> M B) vm a vm1 :
  m vm = Ok a vm1 [] -> bind m k vm = k a vm1.
Proof.
  intros H. unfold bind. rewrite H. destruct (k a vm1); reflexivity.
Qed.

Lemma bind_Undef {A B} (m : M A) (k : A -> M B) vm f out :
  m vm = Undef f out -> bind m k vm = Undef f out.
Proof.
  intros H. unfold bind. rewrite H. reflexivity.
Qed.

Lemma bind_Ok_inv {A B} (m : M A) (k : A -> M B) vm b vm2 out :
  bind m k vm = Ok b vm2 out ->
  exists a vm1 out1 out2,
    m vm = Ok a vm1 out1 /\ k a vm1 = Ok b vm2 out2 /\ out = out1 ++ out2.
Proof.
  unfold bind. destruct (m vm) as [a vm1 out1|]; [|discriminate].
  destruct (k a vm1) as [b' vm2' out2|] eqn:Hk; [|discriminate].
  intros H. injection H as -> -> <-. eauto 8.
Qed.

Lemma PUSH_ok v vm :
  sp vm < INT_MAX ->
  0 <= sp vm + 1 < Z.of_nat (length (stack vm)) ->
  PUSH v vm = Ok tt (set_slot (set_sp vm (sp vm + 1)) (sp vm + 1) v) [].
Proof.
  intros Hmax Hin. unfold PUSH.
  destruct (Z.leb_spec INT_MAX (sp vm)); [lia|].
  apply index_is_Some in Hin. destruct Hin as [x ->]. reflexivity.
Qed.

Lemma PUSH_outside v vm :
  sp vm < INT_MAX ->
  Z.of_nat (length (stack vm)) <= sp vm + 1 ->
  PUSH v vm = Undef (StackOutOfBounds (sp vm + 1)) [].
Proof.
  intros Hmax Hout. unfold PUSH.
  destruct (Z.leb_spec INT_MAX (sp vm)); [lia|].
  assert (index (stack vm) (sp vm + 1) = None) as ->
    by (apply index_None_iff; lia).
  reflexivity.
Qed.

Lemma PUSH_inv v vm u vm' out :
  PUSH v vm = Ok u vm' out ->
  vm' = set_slot (set_sp vm (sp vm + 1)) (sp vm + 1) v /\ out = [] /\
  0 <= sp vm + 1 < Z.of_nat (length (stack vm)).
Proof.
  unfold PUSH. destruct (INT_MAX <=? sp vm); [discriminate|].
  destruct (index (stack vm) (sp vm + 1)) eqn:Hi; [|discriminate].
  intros H. injection H as _ <- <-.
  split; [reflexivity|]. split; [reflexivity|].
  apply index_is_Some. eauto.
Qed.

Lemma POP_ok vm v :
  index (stack vm) (sp vm) = Some v ->
  POP vm = Ok v (set_sp vm (sp vm - 1)) [].
Proof. intros H. unfold POP. rewrite H. reflexivity. Qed.

Lemma POP_outside vm :
  sp vm < 0 \/ Z.of_nat (length (stack vm)) <= sp vm ->
  POP vm = Undef (StackOutOfBounds (sp vm)) [].
Proof.
  intros H. apply index_None_iff in H. unfold POP. rewrite H. reflexivity.
Qed.

Lemma POP_inv vm v vm' out :
  POP vm = Ok v vm' out ->
  index (stack vm) (sp vm) = Some v /\ vm' = set_sp vm (sp vm - 1) /\ out = [].
Proof.
  unfold POP. destruct (index (stack vm) (sp vm)); [|discriminate].
  intros H. injection H as <- <- <-. auto.
Qed.

Lemma NCODE_ok vm b :
  index (code vm) (pc vm) = Some b -> pc vm < INT_MAX ->
  NCODE vm = Ok b (set_pc vm (pc vm + 1)) [].
Proof.
  intros H Hmax. unfold NCODE. rewrite H.
  destruct (Z.leb_spec INT_MAX (pc vm)); [lia|reflexivity].
Qed.

Lemma NCODE_inv vm b vm' out :
  NCODE vm = Ok b vm' out ->
  index (code vm) (pc vm) = Some b /\ pc vm < INT_MAX /\
  vm' = set_pc vm (pc vm + 1) /\ out = [].
Proof.
  unfold NCODE. destruct (index (code vm) (pc vm)); [|discriminate].
  destruct (Z.leb_spec INT_MAX (pc vm)); [discriminate|].
  intros Heq. injection Heq as <- <- <-. auto.
Qed.

Lemma NCODE_outside vm :
  pc vm < 0 \/ Z.of_nat (length (code vm)) <= pc vm ->
  NCODE vm = Undef (CodeOutOfBounds (pc vm) 1) [].
Proof.
  intros H. apply index_None_iff in H. unfold NCODE. rewrite H. reflexivity.
Qed.

(** Two pops in a row, as every binary operation starts. *)
Lemma pop_pop {B} (k : float -> float -> M B) vm a b :
  index (stack vm) (sp vm) = Some b ->
  index (stack vm) (sp vm - 1) = Some a ->
  (b <- POP ;; a <- POP ;; k a b) vm = k a b (set_sp vm (sp vm - 2)).
Proof.
  intros Hb Ha.
  rewrite (bind_Ok_nil _ _ _ _ _ (POP_ok _ _ Hb)).
  erewrite bind_Ok_nil; [|apply POP_ok; exact Ha].
  f_equal. unfold set_sp. cbn. f_equal. lia.
Qed.

(** A push that ends the case. *)
Lemma push_break v vm :
  sp vm < INT_MAX ->
  0 <= sp vm + 1 < Z.of_nat (length (stack vm)) ->
  (PUSH v ;; ret Break) vm =
  Ok Break (mkVM (r1 vm) (r2 vm) (code vm)
                 (<[Z.to_nat (sp vm + 1) := v]> (stack vm)) (pc vm) (sp vm + 1)) [].
Proof.
  intros Hmax Hin.
  rewrite (bind_Ok_nil _ _ _ _ _ (PUSH_ok v vm Hmax Hin)). reflexivity.
Qed.

Lemma pop_pop_push vm a b v :
  two_on_stack vm a b ->
  (PUSH v ;; ret Break) (set_sp vm (sp vm - 2)) = Ok Break (replaced2 vm v) [].
Proof.
  intros (Hlen & Ha & Hb).
  assert (0 <= sp vm - 1 < Z.of_nat (length (stack vm)))
    by (apply index_is_Some; eauto).
  assert (sp vm < 256) by
    (assert (0 <= sp vm < Z.of_nat (length (stack vm)))
       by (apply index_is_Some; eauto);
     rewrite Hlen in *; unfold STACK_SIZE in *; lia).
  rewrite push_break; cbn [sp stack set_sp]; unfold INT_MAX; try lia.
  unfold replaced2. cbn. replace (sp vm - 2 + 1) with (sp vm - 1) by lia.
  reflexivity.
Qed.

(** ** The cases of the switch *)

Lemma instr_ADD host :
  instr host Op.ADD = (b <- POP ;; a <- POP ;; PUSH (a + b)%float ;; ret Break).
Proof. reflexivity. Qed.

Lemma instr_SUB host :
  instr host Op.SUB = (b <- POP ;; a <- POP ;; PUSH (a - b)%float ;; ret Break).
Proof. reflexivity. Qed.

Lemma instr_MUL host :
  instr host Op.MUL = (b <- POP ;; a <- POP ;; PUSH (a * b)%float ;; ret Break).
Proof. reflexivity. Qed.

Lemma instr_DIV host :
  instr host Op.DIV =
  (b <- POP ;; a <- POP ;;
   if (b =? 0)%float then
     printf (DividingByZeroError Op.DIV) ;; ret (Return EXIT_FAILURE)
   else PUSH (a / b)%float ;; ret Break).
Proof. reflexivity. Qed.

Lemma instr_DIV_zero host vm a b :
  two_on_stack vm a b -> (b =? 0)%float = true ->
  instr host Op.DIV vm =
  Ok (Return EXIT_FAILURE) (set_sp vm (sp vm - 2)) [DividingByZeroError Op.DIV].
Proof.
  intros (Hlen & Ha & Hb) Hz.
  rewrite instr_DIV, (pop_pop _ vm a b Hb Ha), Hz. reflexivity.
Qed.

Lemma instr_DIV_nonzero host vm a b :
  two_on_stack vm a b -> (b =? 0)%float = false ->
  instr host Op.DIV vm = Ok Break (replaced2 vm (a / b)) [].
Proof.
  intros H Hz. pose proof H as (Hlen & Ha & Hb).
  rewrite instr_DIV, (pop_pop _ vm a b Hb Ha), Hz.
  apply (pop_pop_push vm a b); assumption.
Qed.

Lemma two_on_stack_set_pc vm a b i :
  two_on_stack vm a b -> two_on_stack (set_pc vm i) a b.
Proof. exact (fun H => H). Qed.

Lemma run_DIV_zero host fuel vm a b :
  two_on_stack vm a b -> fetches vm x64 -> (b =? 0)%float = true ->
  run host (S fuel) vm =
  mkOutcome (Exit EXIT_FAILURE) [DividingByZeroError Op.DIV]
            (mkVM (r1 vm) (r2 vm) (code vm) (stack vm) (pc vm + 1) (sp vm - 2)) 1.
Proof.
  intros H2 [Hf Hmax] Hz. cbn [run].
  rewrite (NCODE_ok vm x64 Hf Hmax).
  change (uchar x64) with Op.DIV.
  rewrite (instr_DIV_zero host _ a b (two_on_stack_set_pc vm a b _ H2) Hz).
  reflexivity.
Qed.

(** ** Division *)

(** C4: with at least two values on the stack, [DIV] whose first-popped operand
    [b] compares equal to 0.0 makes [run] return failure after printing the
    division diagnostic (reported as [DivisionByZero]), with nothing pushed and
    no further opcode decoded; when [b] does not compare equal to 0.0, [DIV]
    pushes [a / b]. *)
Theorem div_zero_fails_else_pushes host vm a b :
  two_on_stack vm a b -> fetches vm x64 ->
  ((b =? 0)%float = true ->
   forall fuel,
     let o := run host (S fuel) vm in
     report o = Some (RuntimeError DivisionByZero) /\
     result_of o = Exit EXIT_FAILURE /\
     output o = [DividingByZeroError Op.DIV] /\
     stack (machine o) = stack vm /\
     pc (machine o) = pc vm + 1 /\
     decoded o = 1%nat) /\
  ((b =? 0)%float = false ->
   step host vm =
   Ok Break (replaced2 (set_pc vm (pc vm + 1)) (a / b)) []).
Proof.
  intros H2 Hf. split; intros Hz.
  - intros fuel o. subst o. rewrite (run_DIV_zero host fuel vm a b H2 Hf Hz).
    repeat split.
  - destruct Hf as [Hf Hmax]. unfold step.
    rewrite (bind_Ok_nil _ _ _ _ _ (NCODE_ok vm x64 Hf Hmax)).
    change (uchar x64) with Op.DIV.
    apply instr_DIV_nonzero; [apply two_on_stack_set_pc; exact H2 | exact Hz].
Qed.

Lemma div_zero_fails_else_pushes_witness :
  (two_on_stack vm_1_0 1 0 /\ fetches vm_1_0 x64 /\ (0 =? 0)%float = true) /\
  (two_on_stack vm_2_1 2 1 /\ fetches vm_2_1 x64 /\ (1 =? 0)%float = false) /\
  report (run LittleEndian 3 vm_1_0) = Some (RuntimeError DivisionByZero) /\
  step LittleEndian vm_2_1 =
  Ok Break (replaced2 (set_pc vm_2_1 (pc vm_2_1 + 1)) (2 / 1)) [].
Proof.
  assert (H10 : two_on_stack vm_1_0 1 0) by (repeat split; reflexivity).
  assert (H21 : two_on_stack vm_2_1 2 1) by (repeat split; reflexivity).
  assert (F10 : fetches vm_1_0 x64) by (split; [reflexivity | vm_compute; reflexivity]).
  assert (F21 : fetches vm_2_1 x64) by (split; [reflexivity | vm_compute; reflexivity]).
  split; [repeat split; assumption || reflexivity|].
  split; [repeat split; assumption || reflexivity|].
  split.
  - apply (proj1 (div_zero_fails_else_pushes LittleEndian vm_1_0 1 0 H10 F10)
             eq_refl 2%nat).
  - apply (proj2 (div_zero_fails_else_pushes LittleEndian vm_2_1 2 1 H21 F21)
             eq_refl).
Defined.

(** C10: when [DIV] fails on a zero divisor, both operands have already been
    popped: the machine [run] leaves behind has a stack two values shorter
    than before the instruction. *)
Theorem div_zero_pops_both host vm a b fuel :
  two_on_stack vm a b -> fetches vm x64 -> (b =? 0)%float = true ->
  let o := run host (S fuel) vm in
  report o = Some (RuntimeError DivisionByZero) /\
  sp (machine o) = sp vm - 2 /\
  depth (machine o) = depth vm - 2.
Proof.
  intros H2 Hf Hz o. subst o. rewrite (run_DIV_zero host fuel vm a b H2 Hf Hz).
  unfold depth. cbn. repeat split; lia.
Qed.

Lemma div_zero_pops_both_witness :
  (two_on_stack vm_1_0 1 0 /\ fetches vm_1_0 x64 /\ (0 =? 0)%float = true) /\
  depth vm_1_0 = 2 /\
  depth (machine (run LittleEndian 3 vm_1_0)) = 0.
Proof.
  assert (H10 : two_on_stack vm_1_0 1 0) by (repeat split; reflexivity).
  assert (F10 : fetches vm_1_0 x64) by (split; [reflexivity | vm_compute; reflexivity]).
  split; [repeat split; assumption || reflexivity|].
  split; [reflexivity|].
  apply (div_zero_pops_both LittleEndian vm_1_0 1 0 2 H10 F10 eq_refl).
Defined.

(** ** Operand order *)

(** C5, as the code has it: with [a] below [b] on the stack ([b] pushed later
    and popped first), [ADD], [SUB] and [MUL] push [a + b], [a - b], [a * b],
    and [DIV] pushes [a / b] when [b] does not compare equal to 0.0; the
    second-popped value is the left operand.  [DIV] on a zero [b] pops both
    and pushes nothing. *)
Theorem binary_ops_left_operand_popped_second host vm a b :
  two_on_stack vm a b ->
  pushes_result host Op.ADD vm (a + b) /\
  pushes_result host Op.SUB vm (a - b) /\
  pushes_result host Op.MUL vm (a * b) /\
  ((b =? 0)%float = false -> pushes_result host Op.DIV vm (a / b)) /\
  ((b =? 0)%float = true ->
   instr host Op.DIV vm =
   Ok (Return EXIT_FAILURE) (set_sp vm (sp vm - 2)) [DividingByZeroError Op.DIV]).
Proof.
  intros H. pose proof H as (Hlen & Ha & Hb). unfold pushes_result.
  repeat split.
  - rewrite instr_ADD, (pop_pop _ vm a b Hb Ha). eapply pop_pop_push; eauto.
  - rewrite instr_SUB, (pop_pop _ vm a b Hb Ha). eapply pop_pop_push; eauto.
  - rewrite instr_MUL, (pop_pop _ vm a b Hb Ha). eapply pop_pop_push; eauto.
  - intros Hz. apply instr_DIV_nonzero; assumption.
  - intros Hz. apply (instr_DIV_zero host vm a b); assumption.
Qed.

Lemma binary_ops_left_operand_popped_second_witness :
  two_on_stack vm_2_1 2 1 /\
  pushes_result BigEndian Op.SUB vm_2_1 1 /\
  pushes_result BigEndian Op.DIV vm_2_1 2.
Proof.
  assert (H21 : two_on_stack vm_2_1 2 1) by (repeat split; reflexivity).
  pose proof (binary_ops_left_operand_popped_second BigEndian vm_2_1 2 1 H21)
    as (_ & Hsub & _ & Hdiv & _).
  split; [exact H21|]. split; [exact Hsub | exact (Hdiv eq_refl)].
Defined.

(** C5 as stated fails for [DIV]: with 1.0 below 0.0 on the stack, [DIV] does
    not push 1.0 / 0.0. *)
Lemma div_by_zero_pushes_nothing :
  two_on_stack vm_1_0 1 0 /\
  ~ pushes_result LittleEndian Op.DIV vm_1_0 (1 / 0).
Proof.
  split; [repeat split; reflexivity|].
  unfold pushes_result. vm_compute. discriminate.
Qed.

(** ** Stack bounds *)

Lemma push_full v vm :
  holds vm 256 -> PUSH v vm = Undef (StackOutOfBounds 256) [].
Proof.
  intros [Hlen Hd]. unfold depth in Hd.
  rewrite PUSH_outside; rewrite ?Hlen; unfold INT_MAX, STACK_SIZE; try lia.
  replace (sp vm + 1) with 256 by lia. reflexivity.
Qed.

Lemma pop_empty vm :
  holds vm 0 -> POP vm = Undef (StackOutOfBounds (-1)) [].
Proof.
  intros [Hlen Hd]. unfold depth in Hd.
  rewrite POP_outside by lia.
  replace (sp vm) with (-1) by lia. reflexivity.
Qed.

Lemma instr_push_full host opcode vm :
  In opcode push_opcodes -> holds vm 256 ->
  instr host opcode vm = Undef (StackOutOfBounds 256) [].
Proof.
  intros Hop Hfull.
  assert (Hpush : forall v, (PUSH v ;; ret Break) vm = Undef (StackOutOfBounds 256) [])
    by (intros v; apply bind_Undef, push_full, Hfull).
  cbn in Hop.
  repeat (destruct Hop as [<- | Hop]; [first [apply Hpush | idtac]|]);
    try contradiction.
  - change (instr host Op.LD1) with (v <- load_r1 ;; PUSH v ;; ret Break).
    erewrite bind_Ok_nil by reflexivity. apply Hpush.
  - change (instr host Op.LD2) with (v <- load_r2 ;; PUSH v ;; ret Break).
    erewrite bind_Ok_nil by reflexivity. apply Hpush.
Qed.

Lemma instr_DCONST_full host vm :
  is_Some (read_bytes (code vm) (pc vm) 8) -> holds vm 256 ->
  instr host Op.DCONST vm = Undef (StackOutOfBounds 256) [].
Proof.
  intros [bs Hbs] Hfull.
  change (instr host Op.DCONST)
    with (b <- memcpy_code host ;; skip_double ;; PUSH b ;; ret Break).
  erewrite bind_Ok_nil by (unfold memcpy_code; rewrite Hbs; reflexivity).
  erewrite bind_Ok_nil by reflexivity.
  apply bind_Undef, push_full. exact Hfull.
Qed.

Lemma instr_pop_empty host opcode vm :
  In opcode pop_opcodes -> holds vm 0 ->
  instr host opcode vm = Undef (StackOutOfBounds (-1)) [].
Proof.
  intros Hop Hempty. cbn in Hop.
  repeat (destruct Hop as [<- | Hop];
          [apply bind_Undef, pop_empty, Hempty|]).
  contradiction.
Qed.

(** No outcome is reported as a stack error: [run] has no such diagnostic. *)
Lemma report_no_stack_error o :
  report o <> Some (RuntimeError StackOverflow) /\
  report o <> Some (RuntimeError StackUnderflow).
Proof.
  unfold report. destruct (result_of o) as [status| |]; try (split; discriminate).
  destruct (status =? EXIT_SUCCESS); [split; discriminate|].
  destruct (last (output o)) as [[]|]; split; discriminate.
Qed.

(** C1, as the code has it: no push and no pop is checked.  With the stack
    array of 256 slots, a push when the stack holds 256 values writes
    [stack[256]] and a pop when the stack is empty reads [stack[-1]], both
    outside the array: the behaviour is undefined from there, and no outcome
    of [run] is reported as [StackOverflow] or [StackUnderflow]. *)
Theorem push_pop_unchecked host vm :
  length (stack vm) = STACK_SIZE ->
  (depth vm = 256 ->
   (forall v, PUSH v vm = Undef (StackOutOfBounds 256) []) /\
   (forall opcode, In opcode push_opcodes ->
      instr host opcode vm = Undef (StackOutOfBounds 256) []) /\
   (is_Some (read_bytes (code vm) (pc vm) 8) ->
      instr host Op.DCONST vm = Undef (StackOutOfBounds 256) [])) /\
  (depth vm = 0 ->
   POP vm = Undef (StackOutOfBounds (-1)) [] /\
   (forall opcode, In opcode pop_opcodes ->
      instr host opcode vm = Undef (StackOutOfBounds (-1)) [])) /\
  (forall fuel,
     report (run host fuel vm) <> Some (RuntimeError StackOverflow) /\
     report (run host fuel vm) <> Some (RuntimeError StackUnderflow)).
Proof.
  intros Hlen. split; [|split].
  - intros Hd. assert (Hfull : holds vm 256) by (split; assumption).
    split; [|split].
    + intros v. apply push_full, Hfull.
    + intros opcode Hop. apply instr_push_full; assumption.
    + intros Hbs. apply instr_DCONST_full; assumption.
  - intros Hd. assert (Hempty : holds vm 0) by (split; assumption).
    split.
    + apply pop_empty, Hempty.
    + intros opcode Hop. apply instr_pop_empty; assumption.
  - intros fuel. apply report_no_stack_error.
Qed.

Lemma push_pop_unchecked_witness :
  (length (stack vm_full) = STACK_SIZE /\ depth vm_full = 256 /\
   In Op.DCONST_1 push_opcodes) /\
  (length (stack vm_empty) = STACK_SIZE /\ depth vm_empty = 0 /\
   In Op.ADD pop_opcodes) /\
  instr LittleEndian Op.DCONST_1 vm_full = Undef (StackOutOfBounds 256) [] /\
  instr LittleEndian Op.ADD vm_empty = Undef (StackOutOfBounds (-1)) [].
Proof.
  assert (Lf : length (stack vm_full) = STACK_SIZE) by (vm_compute; reflexivity).
  assert (Df : depth vm_full = 256) by (vm_compute; reflexivity).
  assert (Le : length (stack vm_empty) = STACK_SIZE) by (vm_compute; reflexivity).
  assert (De : depth vm_empty = 0) by reflexivity.
  assert (Ip : In Op.DCONST_1 push_opcodes) by (cbn; tauto).
  assert (Io : In Op.ADD pop_opcodes) by (cbn; tauto).
  split; [tauto|]. split; [tauto|]. split.
  - exact (proj1 (proj2 (proj1 (push_pop_unchecked LittleEndian vm_full Lf) Df))
             Op.DCONST_1 Ip).
  - exact (proj2 (proj1 (proj2 (push_pop_unchecked LittleEndian vm_empty Le)) De)
             Op.ADD Io).
Defined.

(** C1 as stated fails: a program that starts with [ADD] and a program of 257
    [DCONST_1] leave the stack array, and neither is reported as a stack
    error. *)
Lemma stack_errors_not_reported :
  let under := execute LittleEndian [x60] no_junk in
  let over := execute LittleEndian (repeat x0c 257) no_junk in
  result_of under = Undefined (StackOutOfBounds (-1)) /\
  report under <> Some (RuntimeError StackUnderflow) /\
  result_of over = Undefined (StackOutOfBounds 256) /\
  report over <> Some (RuntimeError StackOverflow).
Proof.
  vm_compute. repeat split; discriminate.
Qed.

(** ** The end of the code buffer *)

Lemma report_no_end_of_code o :
  report o <> Some (RuntimeError UnexpectedEndOfCode).
Proof.
  unfold report. destruct (result_of o) as [status| |]; try discriminate.
  destruct (status =? EXIT_SUCCESS); [discriminate|].
  destruct (last (output o)) as [[]|]; discriminate.
Qed.

Lemma instr_DCONST_short host vm :
  Z.of_nat (length (code vm)) < pc vm + 8 ->
  instr host Op.DCONST vm = Undef (CodeOutOfBounds (pc vm) 8) [].
Proof.
  intros Hshort.
  change (instr host Op.DCONST)
    with (b <- memcpy_code host ;; skip_double ;; PUSH b ;; ret Break).
  apply bind_Undef. unfold memcpy_code.
  assert (read_bytes (code vm) (pc vm) 8 = None) as ->
    by (apply read_bytes_None; [discriminate | lia]).
  reflexivity.
Qed.

(** C2, as the code has it: no fetch is checked against the end of the code
    (the machine does not know the length of its code).  A fetch of an opcode
    with the program counter at or past the end reads [code[pc]] outside the
    buffer, and [DCONST] with fewer than 8 bytes after it copies bytes from
    outside the buffer: the behaviour is undefined from there, and no outcome
    of [run] is reported as [UnexpectedEndOfCode]. *)
Theorem fetch_unchecked host vm :
  (Z.of_nat (length (code vm)) <= pc vm ->
   NCODE vm = Undef (CodeOutOfBounds (pc vm) 1) [] /\
   forall fuel,
     result_of (run host (S fuel) vm) = Undefined (CodeOutOfBounds (pc vm) 1)) /\
  (Z.of_nat (length (code vm)) < pc vm + 8 ->
   instr host Op.DCONST vm = Undef (CodeOutOfBounds (pc vm) 8) []) /\
  (forall fuel,
     report (run host fuel vm) <> Some (RuntimeError UnexpectedEndOfCode)).
Proof.
  split; [|split].
  - intros Hend.
    assert (H : NCODE vm = Undef (CodeOutOfBounds (pc vm) 1) [])
      by (apply NCODE_outside; lia).
    split; [exact H|]. intros fuel. cbn [run]. rewrite H. reflexivity.
  - apply instr_DCONST_short.
  - intros fuel. apply report_no_end_of_code.
Qed.

Lemma fetch_unchecked_witness :
  (Z.of_nat (length (code vm_at_end)) <= pc vm_at_end /\
   Z.of_nat (length (code vm_short)) < pc vm_short + 8) /\
  NCODE vm_at_end = Undef (CodeOutOfBounds 1 1) [] /\
  instr LittleEndian Op.DCONST vm_short = Undef (CodeOutOfBounds 1 8) [].
Proof.
  assert (He : Z.of_nat (length (code vm_at_end)) <= pc vm_at_end)
    by (vm_compute; discriminate).
  assert (Hs : Z.of_nat (length (code vm_short)) < pc vm_short + 8)
    by (vm_compute; reflexivity).
  split; [split; assumption|]. split.
  - exact (proj1 (proj1 (fetch_unchecked LittleEndian vm_at_end) He)).
  - exact (proj1 (proj2 (fetch_unchecked LittleEndian vm_short)) Hs).
Defined.

(** C2 as stated fails: a program without [HALT], and a [DCONST] with two
    operand bytes, run off the end of the code and are not reported as
    [UnexpectedEndOfCode]. *)
Lemma end_of_code_not_reported :
  let nop := execute LittleEndian [xf0] no_junk in
  let short := execute LittleEndian [x0f; x3f; xf0] no_junk in
  result_of nop = Undefined (CodeOutOfBounds 1 1) /\
  report nop <> Some (RuntimeError UnexpectedEndOfCode) /\
  result_of short = Undefined (CodeOutOfBounds 1 8) /\
  report short <> Some (RuntimeError UnexpectedEndOfCode).
Proof.
  vm_compute. repeat split; discriminate.
Qed.

(** ** The operand of DCONST *)

Lemma lor_shiftl_8 (a x : Z) :
  0 <= a < 256 -> Z.lor a (Z.shiftl x 8) = a + 256 * x.
Proof.
  intros Ha. rewrite Z.shiftl_mul_pow2 by lia.
  assert (Hland : Z.land a (x * 2 ^ 8) = 0).
  { apply Z.bits_inj'. intros n Hn.
    rewrite Z.land_spec, Z.bits_0.
    destruct (Z.ltb_spec n 8).
    - rewrite Z.mul_pow2_bits_low by lia. apply andb_false_r.
    - assert (Z.testbit a n = false) as ->; [|reflexivity].
      destruct (Z.eq_dec a 0) as [->|]; [apply Z.bits_0|].
      apply Z.bits_above_log2; [lia|].
      assert (Z.log2 a < 8) by (apply Z.log2_lt_pow2; lia). lia. }
  rewrite <- Z.lxor_lor by exact Hland.
  rewrite <- Z.add_nocarry_lxor by exact Hland. lia.
Qed.

Lemma le_bits_cons (b : byte) (bs : list byte) :
  le_bits (b :: bs) = uchar b + 256 * le_bits bs.
Proof. cbn [le_bits]. apply lor_shiftl_8, uchar_range. Qed.

Lemma instr_DCONST_ok host vm bs :
  read_bytes (code vm) (pc vm) 8 = Some bs ->
  sp vm < INT_MAX ->
  0 <= sp vm + 1 < Z.of_nat (length (stack vm)) ->
  instr host Op.DCONST vm =
  Ok Break
     (mkVM (r1 vm) (r2 vm) (code vm)
           (<[Z.to_nat (sp vm + 1) := double_of_bits (bits_of_bytes host bs)]> (stack vm))
           (to_int (pc vm + 8)) (sp vm + 1)) [].
Proof.
  intros Hbs Hmax Hin.
  change (instr host Op.DCONST)
    with (b <- memcpy_code host ;; skip_double ;; PUSH b ;; ret Break).
  erewrite bind_Ok_nil by (unfold memcpy_code; rewrite Hbs; reflexivity).
  erewrite bind_Ok_nil by reflexivity.
  rewrite push_break by assumption. reflexivity.
Qed.

(** C3, as the code has it: [DCONST] copies its 8 operand bytes with [memcpy],
    so they are read as an IEEE-754 binary64 value in the byte order of the
    host.  On a little-endian host the byte at the lowest offset is the least
    significant one; there the bytes 00 00 00 00 00 00 F0 3F decode to 1.0 and
    the bytes 3F F0 00 00 00 00 00 00 decode to the subnormal 61503 * 2^-1074
    (they decode to 1.0 on a big-endian host). *)
Theorem dconst_operand_in_host_byte_order :
  (forall b0 b1 b2 b3 b4 b5 b6 b7 : byte,
     bits_of_bytes LittleEndian [b0; b1; b2; b3; b4; b5; b6; b7] =
     uchar b0 + 2 ^ 8 * uchar b1 + 2 ^ 16 * uchar b2 + 2 ^ 24 * uchar b3 +
     2 ^ 32 * uchar b4 + 2 ^ 40 * uchar b5 + 2 ^ 48 * uchar b6 + 2 ^ 56 * uchar b7) /\
  (forall b0 b1 b2 b3 b4 b5 b6 b7 : byte,
     bits_of_bytes BigEndian [b0; b1; b2; b3; b4; b5; b6; b7] =
     uchar b7 + 2 ^ 8 * uchar b6 + 2 ^ 16 * uchar b5 + 2 ^ 24 * uchar b4 +
     2 ^ 32 * uchar b3 + 2 ^ 40 * uchar b2 + 2 ^ 48 * uchar b1 + 2 ^ 56 * uchar b0) /\
  (forall host vm bs,
     read_bytes (code vm) (pc vm) 8 = Some bs ->
     sp vm < INT_MAX ->
     0 <= sp vm + 1 < Z.of_nat (length (stack vm)) ->
     instr host Op.DCONST vm =
     Ok Break
        (mkVM (r1 vm) (r2 vm) (code vm)
              (<[Z.to_nat (sp vm + 1) := double_of_bits (bits_of_bytes host bs)]> (stack vm))
              (to_int (pc vm + 8)) (sp vm + 1)) []) /\
  memcpy_double LittleEndian [x00; x00; x00; x00; x00; x00; xf0; x3f] = 1%float /\
  memcpy_double LittleEndian [x3f; xf0; x00; x00; x00; x00; x00; x00] =
    SF2Prim (S754_finite false 61503 (-1074)) /\
  memcpy_double BigEndian [x3f; xf0; x00; x00; x00; x00; x00; x00] = 1%float /\
  (forall junk,
     output (execute LittleEndian bytecode3 junk) = [PrintDouble 1] /\
     output (execute BigEndian bytecode2 junk) = [PrintDouble 1]).
Proof.
  split; [|split; [|split]].
  - intros. unfold bits_of_bytes. rewrite !le_bits_cons. cbn [le_bits]. lia.
  - intros. unfold bits_of_bytes. cbn [rev app].
    rewrite !le_bits_cons. cbn [le_bits]. lia.
  - intros host vm bs. apply instr_DCONST_ok.
  - repeat split; reflexivity.
Qed.

Lemma dconst_operand_in_host_byte_order_witness :
  (read_bytes (code vm_dconst) (pc vm_dconst) 8 =
     Some [x00; x00; x00; x00; x00; x00; xf0; x3f] /\
   sp vm_dconst < INT_MAX /\
   0 <= sp vm_dconst + 1 < Z.of_nat (length (stack vm_dconst))) /\
  exists vm',
    instr LittleEndian Op.DCONST vm_dconst = Ok Break vm' [] /\
    index (stack vm') (sp vm') = Some 1%float /\ pc vm' = 9.
Proof.
  assert (Hbs : read_bytes (code vm_dconst) (pc vm_dconst) 8 =
                Some [x00; x00; x00; x00; x00; x00; xf0; x3f]) by reflexivity.
  assert (Hmax : sp vm_dconst < INT_MAX) by reflexivity.
  assert (Hin : 0 <= sp vm_dconst + 1 < Z.of_nat (length (stack vm_dconst)))
    by (vm_compute; split; [discriminate | reflexivity]).
  split; [tauto|].
  eexists. split.
  - exact (proj1 (proj2 (proj2 dconst_operand_in_host_byte_order))
             LittleEndian vm_dconst _ Hbs Hmax Hin).
  - split; reflexivity.
Defined.

(** C3 as stated fails: read with the lowest offset least significant, the
    bytes 3F F0 00 00 00 00 00 00 are not 1.0, and [bytecode2] does not print
    1.0 on a little-endian host. *)
Lemma bytes_3f_f0_not_one_little_endian :
  bits_of_bytes LittleEndian [x3f; xf0; x00; x00; x00; x00; x00; x00] = 0xF03F /\
  memcpy_double LittleEndian [x3f; xf0; x00; x00; x00; x00; x00; x00] <> 1%float /\
  output (execute LittleEndian bytecode2 no_junk) <> [PrintDouble 1].
Proof.
  split; [reflexivity|]. split.
  - intros H. apply (f_equal Prim2SF) in H. vm_compute in H. discriminate.
  - intros H.
    apply (f_equal (fun out => match out with
                               | [PrintDouble a] => Prim2SF a
                               | _ => S754_nan
                               end)) in H.
    vm_compute in H. discriminate.
Qed.

(** ** The sample program *)

(** C6: the program [DCONST_2, DCONST_1, SUB, PRINT, HALT] on a fresh machine
    prints exactly one value, 1.0, and returns success. *)
Theorem sample_program_prints_one host junk :
  let o := execute host bytecode junk in
  output o = [PrintDouble 1] /\
  result_of o = Exit EXIT_SUCCESS /\
  report o = Some Halted /\
  decoded o = 5%nat.
Proof.
  vm_compute. repeat split.
Qed.

(** ** Registers *)

Lemma keeps_ret {T A} (f : VM -> T) (a : A) : keeps f (ret a).
Proof. intros vm a' vm' out H. injection H; intros; subst; reflexivity. Qed.

Lemma keeps_bind {T A B} (f : VM -> T) (m : M A) (k : A -> M B) :
  keeps f m -> (forall a, keeps f (k a)) -> keeps f (bind m k).
Proof.
  intros Hm Hk vm b vm2 out H.
  apply bind_Ok_inv in H as (a & vm1 & out1 & out2 & H1 & H2 & _).
  rewrite (Hk a _ _ _ _ H2). exact (Hm _ _ _ _ H1).
Qed.

Lemma keeps_printf {T} (f : VM -> T) e : keeps f (printf e).
Proof. intros vm a vm' out H. injection H; intros; subst; reflexivity. Qed.

Lemma keeps_load_r1 {T} (f : VM -> T) : keeps f load_r1.
Proof. intros vm a vm' out H. injection H; intros; subst; reflexivity. Qed.

Lemma keeps_load_r2 {T} (f : VM -> T) : keeps f load_r2.
Proof. intros vm a vm' out H. injection H; intros; subst; reflexivity. Qed.

Lemma keeps_memcpy_code {T} (f : VM -> T) host : keeps f (memcpy_code host).
Proof.
  intros vm a vm' out. unfold memcpy_code.
  destruct (read_bytes (code vm) (pc vm) 8); [|discriminate].
  intros H. injection H; intros; subst; reflexivity.
Qed.

Lemma keeps_PUSH {T} (f : VM -> T) v : stack_blind f -> keeps f (PUSH v).
Proof.
  intros Hf vm a vm' out H. apply PUSH_inv in H as (-> & _ & _). exact (Hf vm _ _).
Qed.

Lemma keeps_POP {T} (f : VM -> T) : stack_blind f -> keeps f POP.
Proof.
  intros Hf vm a vm' out H. apply POP_inv in H as (_ & -> & _). exact (Hf vm _ _).
Qed.

Lemma keeps_store_r1 {T} (f : VM -> T) v :
  (forall vm, f (set_r1 vm v) = f vm) -> keeps f (store_r1 v).
Proof. intros Hf vm a vm' out H. injection H; intros; subst; apply Hf. Qed.

Lemma keeps_store_r2 {T} (f : VM -> T) v :
  (forall vm, f (set_r2 vm v) = f vm) -> keeps f (store_r2 v).
Proof. intros Hf vm a vm' out H. injection H; intros; subst; apply Hf. Qed.

Lemma keeps_skip_double {T} (f : VM -> T) :
  (forall vm i, f (set_pc vm i) = f vm) -> keeps f skip_double.
Proof. intros Hf vm a vm' out H. injection H; intros; subst; apply Hf. Qed.

Create HintDb keeps discriminated.
#[local] Hint Resolve keeps_ret keeps_bind keeps_printf keeps_load_r1 keeps_load_r2
  keeps_memcpy_code keeps_PUSH keeps_POP keeps_store_r1 keeps_store_r2
  keeps_skip_double : keeps.
#[local] Hint Extern 1 (stack_blind _) => (intros ? ? ?; reflexivity) : keeps.
#[local] Hint Extern 1 (_ = _) => reflexivity : keeps.
#[local] Hint Extern 2 (keeps _ (if ?c then _ else _)) => destruct c : keeps.

(** Every case of the switch but the one named leaves [f] alone. *)
Ltac keeps_by_cases opcode :=
  unfold instr;
  repeat match goal with
         | |- context [opcode =? ?c] =>
             destruct (Z.eqb_spec opcode c); [try contradiction|]
         end;
  eauto 12 with keeps.

Lemma instr_keeps_r1 host opcode :
  opcode <> Op.ST1 -> keeps r1 (instr host opcode).
Proof. intros Hne. keeps_by_cases opcode. Qed.

Lemma instr_keeps_r2 host opcode :
  opcode <> Op.ST2 -> keeps r2 (instr host opcode).
Proof. intros Hne. keeps_by_cases opcode. Qed.

Lemma instr_keeps_code host opcode : keeps code (instr host opcode).
Proof. keeps_by_cases opcode. Qed.

Lemma instr_keeps_pc host opcode :
  opcode <> Op.DCONST -> keeps pc (instr host opcode).
Proof. intros Hne. keeps_by_cases opcode. Qed.

Lemma step_inv host vm c vm' out :
  step host vm = Ok c vm' out ->
  exists b,
    index (code vm) (pc vm) = Some b /\ pc vm < INT_MAX /\
    instr host (uchar b) (set_pc vm (pc vm + 1)) = Ok c vm' out.
Proof.
  intros H. unfold step in H.
  apply bind_Ok_inv in H as (b & vm1 & out1 & out2 & H1 & H2 & ->).
  apply NCODE_inv in H1 as (Hb & Hmax & -> & ->).
  exists b. auto.
Qed.

Lemma instr_ST1_inv host vm c vm' out :
  instr host Op.ST1 vm = Ok c vm' out ->
  index (stack vm) (sp vm) = Some (r1 vm').
Proof.
  change (instr host Op.ST1) with (b <- POP ;; store_r1 b ;; ret Break).
  intros H.
  apply bind_Ok_inv in H as (b & vm1 & ? & ? & Hpop & H & _).
  apply POP_inv in Hpop as (Hb & -> & _).
  apply bind_Ok_inv in H as ([] & vm2 & ? & ? & Hst & H & _).
  injection Hst; intros; subst. injection H; intros; subst. exact Hb.
Qed.

Lemma instr_ST2_inv host vm c vm' out :
  instr host Op.ST2 vm = Ok c vm' out ->
  index (stack vm) (sp vm) = Some (r2 vm').
Proof.
  change (instr host Op.ST2) with (b <- POP ;; store_r2 b ;; ret Break).
  intros H.
  apply bind_Ok_inv in H as (b & vm1 & ? & ? & Hpop & H & _).
  apply POP_inv in Hpop as (Hb & -> & _).
  apply bind_Ok_inv in H as ([] & vm2 & ? & ? & Hst & H & _).
  injection Hst; intros; subst. injection H; intros; subst. exact Hb.
Qed.

Lemma push_break_inv v vm c vm' out :
  (PUSH v ;; ret Break) vm = Ok c vm' out ->
  index (stack vm') (sp vm') = Some v.
Proof.
  intros H.
  apply bind_Ok_inv in H as ([] & vm1 & ? & ? & Hpush & H & _).
  apply PUSH_inv in Hpush as (-> & _ & Hin).
  injection H; intros; subst. cbn.
  apply index_Some_iff. split; [lia|].
  apply list_lookup_insert_eq. lia.
Qed.

Lemma instr_LD1_inv host vm c vm' out :
  instr host Op.LD1 vm = Ok c vm' out ->
  index (stack vm') (sp vm') = Some (r1 vm).
Proof.
  change (instr host Op.LD1) with (v <- load_r1 ;; PUSH v ;; ret Break).
  intros H. erewrite bind_Ok_nil in H by reflexivity.
  exact (push_break_inv _ _ _ _ _ H).
Qed.

Lemma instr_LD2_inv host vm c vm' out :
  instr host Op.LD2 vm = Ok c vm' out ->
  index (stack vm') (sp vm') = Some (r2 vm).
Proof.
  change (instr host Op.LD2) with (v <- load_r2 ;; PUSH v ;; ret Break).
  intros H. erewrite bind_Ok_nil in H by reflexivity.
  exact (push_break_inv _ _ _ _ _ H).
Qed.

(** C7: a fresh machine has 0.0 in both registers; a turn of the loop changes
    [r1] only when the opcode is [ST1] and [r2] only when it is [ST2], the
    store taking the value on top of the stack; [LD1] and [LD2] push the
    register's value and leave both registers as they were. *)
Theorem registers_written_only_by_stores host :
  (forall code junk,
     r1 (newVM code junk) = 0%float /\ r2 (newVM code junk) = 0%float) /\
  (forall vm b c vm' out,
     index (code vm) (pc vm) = Some b ->
     step host vm = Ok c vm' out ->
     (uchar b <> Op.ST1 -> r1 vm' = r1 vm) /\
     (uchar b <> Op.ST2 -> r2 vm' = r2 vm) /\
     (uchar b = Op.ST1 -> index (stack vm) (sp vm) = Some (r1 vm')) /\
     (uchar b = Op.ST2 -> index (stack vm) (sp vm) = Some (r2 vm')) /\
     (uchar b = Op.LD1 -> index (stack vm') (sp vm') = Some (r1 vm)) /\
     (uchar b = Op.LD2 -> index (stack vm') (sp vm') = Some (r2 vm))).
Proof.
  split; [intros; split; reflexivity|].
  intros vm b c vm' out Hb H.
  apply step_inv in H as (b' & Hb' & Hmax & H).
  assert (b' = b) as -> by congruence.
  repeat split.
  - intros Hne. exact (instr_keeps_r1 host _ Hne _ _ _ _ H).
  - intros Hne. exact (instr_keeps_r2 host _ Hne _ _ _ _ H).
  - intros Heq. rewrite Heq in H. exact (instr_ST1_inv _ _ _ _ _ H).
  - intros Heq. rewrite Heq in H. exact (instr_ST2_inv _ _ _ _ _ H).
  - intros Heq. rewrite Heq in H. exact (instr_LD1_inv _ _ _ _ _ H).
  - intros Heq. rewrite Heq in H. exact (instr_LD2_inv _ _ _ _ _ H).
Qed.

Lemma registers_written_only_by_stores_witness :
  (exists vm',
     index (code vm_before_st1) (pc vm_before_st1) = Some xf4 /\
     step LittleEndian vm_before_st1 = Ok Break vm' [] /\
     r1 vm_before_st1 = 0%float /\ r1 vm' = 2%float /\ r2 vm' = r2 vm_before_st1) /\
  (exists vm',
     index (code vm_before_ld1) (pc vm_before_ld1) = Some xf5 /\
     step LittleEndian vm_before_ld1 = Ok Break vm' [] /\
     r1 vm' = r1 vm_before_ld1 /\ index (stack vm') (sp vm') = Some 2%float).
Proof.
  split.
  - eexists. split; [reflexivity|]. split; [vm_compute; reflexivity|].
    split; [reflexivity|]. split; [reflexivity|].
    refine (proj1 (proj2 (proj2 (registers_written_only_by_stores LittleEndian)
                            vm_before_st1 xf4 Break _ [] eq_refl _)) _).
    + vm_compute. reflexivity.
    + vm_compute. discriminate.
  - eexists. split; [reflexivity|]. split; [vm_compute; reflexivity|].
    split.
    + refine (proj1 (proj2 (registers_written_only_by_stores LittleEndian)
                       vm_before_ld1 xf5 Break _ [] eq_refl _) _).
      * vm_compute. reflexivity.
      * vm_compute. discriminate.
    + reflexivity.
Defined.

(** ** Termination *)

Lemma to_int_small z : INT_MIN <= z <= INT_MAX -> to_int z = z.
Proof.
  unfold to_int, INT_MIN, INT_MAX. intros H.
  rewrite Z.mod_small; lia.
Qed.

Lemma to_int_wrap z : INT_MAX < z <= INT_MAX + 2 ^ 32 -> to_int z = z - 2 ^ 32.
Proof.
  unfold to_int, INT_MIN, INT_MAX. intros H.
  replace (z - -2147483648) with ((z - 2147483648) + 1 * 2 ^ 32) by lia.
  rewrite Z.mod_add by lia. rewrite Z.mod_small; lia.
Qed.

Lemma instr_DCONST_inv host vm c vm' out :
  instr host Op.DCONST vm = Ok c vm' out ->
  0 <= pc vm /\ pc vm + 8 <= Z.of_nat (length (code vm)) /\
  pc vm' = to_int (pc vm + 8) /\ code vm' = code vm.
Proof.
  intros H. pose proof (instr_keeps_code host _ _ _ _ _ H) as Hcode.
  revert H.
  change (instr host Op.DCONST)
    with (b <- memcpy_code host ;; skip_double ;; PUSH b ;; ret Break).
  intros H.
  apply bind_Ok_inv in H as (b & vm1 & ? & ? & Hcpy & H & _).
  unfold memcpy_code in Hcpy.
  destruct (read_bytes (code vm) (pc vm) 8) as [bs|] eqn:Hbs; [|discriminate].
  injection Hcpy as Eb Evm _. subst b vm1.
  assert (Hin : ~ (pc vm < 0 \/ Z.of_nat (length (code vm)) < pc vm + Z.of_nat 8)).
  { intros Hout. apply (read_bytes_None (code vm) 8) in Hout; [|discriminate].
    congruence. }
  erewrite bind_Ok_nil in H by reflexivity.
  assert (Hpc : pc vm' = pc (set_pc vm (to_int (pc vm + 8)))).
  { revert H. generalize (set_pc vm (to_int (pc vm + 8))). intros vm2 H.
    assert (keeps pc (PUSH (memcpy_double host bs) ;; ret Break)) as Hk
        by eauto with keeps.
    exact (Hk _ _ _ _ H). }
  cbn in Hpc. repeat split; try assumption; lia.
Qed.

(** One turn of the loop that ends in [break] uses up code. *)
Lemma turn_uses_code host vm b vm1 out1 c vm2 out2 :
  NCODE vm = Ok b vm1 out1 ->
  instr host (uchar b) vm1 = Ok c vm2 out2 ->
  code vm2 = code vm /\
  (pc vm < pc vm2 <= Z.of_nat (length (code vm)) \/ pc vm2 < 0) /\
  (Z.of_nat (length (code vm)) <= INT_MAX -> pc vm < pc vm2).
Proof.
  intros Hn Hi. apply NCODE_inv in Hn as (Hb & Hmax & -> & _).
  assert (Hpc : 0 <= pc vm < Z.of_nat (length (code vm)))
    by (apply index_is_Some; eauto).
  destruct (Z.eq_dec (uchar b) Op.DCONST) as [Heq|Hne].
  - rewrite Heq in Hi. apply instr_DCONST_inv in Hi as (_ & Hlen & Hpc2 & Hcode).
    cbn in Hlen, Hpc2, Hcode. split; [exact Hcode|].
    unfold INT_MAX in *.
    destruct (Z_le_gt_dec (pc vm + 1 + 8) 2147483647).
    + rewrite to_int_small in Hpc2 by (unfold INT_MIN, INT_MAX; lia). lia.
    + rewrite to_int_wrap in Hpc2 by (unfold INT_MAX; lia). lia.
  - pose proof (instr_keeps_pc host _ Hne _ _ _ _ Hi) as Hpc2.
    pose proof (instr_keeps_code host _ _ _ _ _ Hi) as Hcode.
    cbn in Hpc2, Hcode. split; [exact Hcode|]. lia.
Qed.

Lemma turn_remaining host vm b vm1 out1 c vm2 out2 :
  NCODE vm = Ok b vm1 out1 ->
  instr host (uchar b) vm1 = Ok c vm2 out2 ->
  (remaining vm2 < remaining vm)%nat.
Proof.
  intros Hn Hi.
  destruct (turn_uses_code host _ _ _ _ _ _ _ Hn Hi) as (Hcode & Hpc & _).
  apply NCODE_inv in Hn as (Hb & _).
  assert (0 <= pc vm < Z.of_nat (length (code vm)))
    by (apply index_is_Some; eauto).
  unfold remaining. rewrite Hcode.
  destruct (Z.ltb_spec (pc vm) 0); [lia|].
  destruct (Z.ltb_spec (pc vm2) 0); lia.
Qed.

Lemma fetched_remaining vm b vm1 out1 :
  NCODE vm = Ok b vm1 out1 -> (1 <= remaining vm)%nat.
Proof.
  intros Hn. apply NCODE_inv in Hn as (Hb & _).
  assert (0 <= pc vm < Z.of_nat (length (code vm)))
    by (apply index_is_Some; eauto).
  unfold remaining. destruct (Z.ltb_spec (pc vm) 0); lia.
Qed.

Lemma run_bound host fuel : forall vm,
  (decoded (run host fuel vm) <= remaining vm)%nat /\
  ((remaining vm < fuel)%nat -> result_of (run host fuel vm) <> Running).
Proof.
  induction fuel as [|fuel IH]; intros vm; cbn [run].
  - cbn. split; lia.
  - destruct (NCODE vm) as [b vm1 out1|f out1] eqn:Hn.
    + pose proof (fetched_remaining _ _ _ _ Hn) as H1.
      destruct (instr host (uchar b) vm1) as [[|status] vm2 out2|f out2] eqn:Hi;
        cbn; try (split; [lia | discriminate]).
      pose proof (turn_remaining host _ _ _ _ _ _ _ Hn Hi) as Hlt.
      destruct (IH vm2) as [Hd Hr]. split; [lia|].
      intros Hfuel. apply Hr. lia.
    + cbn. split; [lia | discriminate].
Qed.

(** Fuel beyond what [run] needs changes nothing. *)
Lemma run_more_fuel host fuel : forall vm fuel',
  result_of (run host fuel vm) <> Running -> (fuel <= fuel')%nat ->
  run host fuel' vm = run host fuel vm.
Proof.
  induction fuel as [|fuel IH]; intros vm fuel' Hres Hle; cbn [run] in *.
  - cbn in Hres. congruence.
  - destruct fuel' as [|fuel']; [lia|]. cbn [run].
    destruct (NCODE vm) as [b vm1 out1|f out1]; [|reflexivity].
    destruct (instr host (uchar b) vm1) as [[|status] vm2 out2|f out2];
      try reflexivity.
    cbn in Hres. rewrite (IH vm2 fuel') by (auto; lia). reflexivity.
Qed.

Lemma remaining_newVM code junk : remaining (newVM code junk) = length code.
Proof. unfold remaining. cbn. lia. Qed.




(** ** Independence of what a fresh machine finds in memory *)

Lemma agree_ret {A} (a : A) : M_agree (ret a).
Proof. intros vm1 vm2 H. cbn. auto. Qed.

Lemma agree_bind {A B} (m : M A) (k : A -> M B) :
  M_agree m -> (forall a, M_agree (k a)) -> M_agree (bind m k).
Proof.
  intros Hm Hk vm1 vm2 H. unfold bind.
  specialize (Hm vm1 vm2 H).
  destruct (m vm1) as [a v1 o1|f1 o1], (m vm2) as [a' v2 o2|f2 o2];
    cbn in Hm; try contradiction.
  - destruct Hm as (<- & Hv & <-). specialize (Hk a v1 v2 Hv).
    destruct (k a v1) as [b w1 p1|g1 p1], (k a v2) as [b' w2 p2|g2 p2];
      cbn in Hk |- *; try contradiction.
    + destruct Hk as (<- & Hw & <-). auto.
    + destruct Hk as (<- & <-). auto.
  - exact Hm.
Qed.

Lemma agree_printf e : M_agree (printf e).
Proof. intros vm1 vm2 H. cbn. auto. Qed.

Lemma agree_load_r1 : M_agree load_r1.
Proof. intros vm1 vm2 H. cbn. split; [apply H | auto]. Qed.

Lemma agree_load_r2 : M_agree load_r2.
Proof. intros vm1 vm2 H. cbn. split; [apply H | auto]. Qed.

Lemma agree_store_r1 v : M_agree (store_r1 v).
Proof.
  intros vm1 vm2 (H1 & H2 & H3 & H4 & H5 & H6 & H7). cbn.
  repeat split; auto.
Qed.

Lemma agree_store_r2 v : M_agree (store_r2 v).
Proof.
  intros vm1 vm2 (H1 & H2 & H3 & H4 & H5 & H6 & H7). cbn.
  repeat split; auto.
Qed.

Lemma agree_skip_double : M_agree skip_double.
Proof.
  intros vm1 vm2 (H1 & H2 & H3 & H4 & H5 & H6 & H7). cbn.
  rewrite H4. repeat split; auto.
Qed.

Lemma agree_memcpy_code host : M_agree (memcpy_code host).
Proof.
  intros vm1 vm2 H. pose proof H as (H1 & H2 & H3 & H4 & H5 & H6 & H7).
  unfold memcpy_code. rewrite H3, H4.
  destruct (read_bytes (code vm2) (pc vm2) 8); cbn; auto.
Qed.

Lemma agree_NCODE : M_agree NCODE.
Proof.
  intros vm1 vm2 (H1 & H2 & H3 & H4 & H5 & H6 & H7).
  unfold NCODE. rewrite H3, H4.
  destruct (index (code vm2) (pc vm2)); [|cbn; auto].
  destruct (INT_MAX <=? pc vm2); cbn; [auto|].
  repeat split; auto.
Qed.

Lemma agree_POP : M_agree POP.
Proof.
  intros vm1 vm2 (H1 & H2 & H3 & H4 & H5 & H6 & H7). unfold POP.
  destruct (index (stack vm1) (sp vm1)) as [v|] eqn:Hv.
  - assert (0 <= sp vm1 < Z.of_nat (length (stack vm1)))
      by (apply index_is_Some; eauto).
    rewrite <- H5, <- (H7 (sp vm1)), Hv by lia. cbn.
    repeat split; auto. intros i Hi. cbn in Hi. apply H7. lia.
  - apply index_None_iff in Hv. rewrite H6, H5 in Hv.
    apply index_None_iff in Hv. rewrite Hv. cbn. rewrite H5. auto.
Qed.

Lemma agree_PUSH v : M_agree (PUSH v).
Proof.
  intros vm1 vm2 (H1 & H2 & H3 & H4 & H5 & H6 & H7). unfold PUSH.
  rewrite <- H5. destruct (INT_MAX <=? sp vm1); [cbn; auto|].
  destruct (index (stack vm1) (sp vm1 + 1)) as [x|] eqn:Hx.
  - assert (Hin : 0 <= sp vm1 + 1 < Z.of_nat (length (stack vm1)))
      by (apply index_is_Some; eauto).
    pose proof Hin as Hin2. rewrite H6 in Hin2.
    apply index_is_Some in Hin2 as [y ->]. cbn.
    split; [reflexivity|]. split; [|reflexivity].
    unfold agree, set_slot, set_sp. cbn [r1 r2 code pc sp stack].
    repeat (split; [assumption || reflexivity|]). split.
    + rewrite !length_insert. exact H6.
    + intros i Hi. unfold index. destruct (Z.ltb_spec i 0); [reflexivity|].
      destruct (Z.eq_dec i (sp vm1 + 1)) as [->|Hne].
      * rewrite !list_lookup_insert_eq by lia. reflexivity.
      * rewrite !list_lookup_insert_ne by lia.
        specialize (H7 i ltac:(lia)). unfold index in H7.
        destruct (Z.ltb_spec i 0); [lia | exact H7].
  - apply index_None_iff in Hx. rewrite H6 in Hx.
    apply index_None_iff in Hx. rewrite Hx. cbn. auto.
Qed.

Create HintDb agree discriminated.
#[local] Hint Resolve agree_ret agree_bind agree_printf agree_load_r1 agree_load_r2
  agree_store_r1 agree_store_r2 agree_skip_double agree_memcpy_code
  agree_POP agree_PUSH : agree.
#[local] Hint Extern 2 (M_agree (if ?c then _ else _)) => destruct c : agree.

Lemma agree_instr host opcode : M_agree (instr host opcode).
Proof.
  unfold instr.
  repeat match goal with
         | |- context [opcode =? ?c] => destruct (opcode =? c)
         end;
  eauto 12 with agree.
Qed.

Lemma agree_newVM prog junk1 junk2 :
  agree (newVM prog junk1) (newVM prog junk2).
Proof.
  unfold newVM, agree. cbn [r1 r2 code pc sp stack].
  do 5 (split; [reflexivity|]). split.
  - unfold malloc_doubles. rewrite !length_map. reflexivity.
  - intros i Hi. lia.
Qed.

(** Machines that agree run alike. *)
Lemma agree_run host fuel : forall vm1 vm2,
  agree vm1 vm2 ->
  result_of (run host fuel vm1) = result_of (run host fuel vm2) /\
  output (run host fuel vm1) = output (run host fuel vm2) /\
  decoded (run host fuel vm1) = decoded (run host fuel vm2) /\
  agree (machine (run host fuel vm1)) (machine (run host fuel vm2)).
Proof.
  induction fuel as [|fuel IH]; intros vm1 vm2 H; cbn [run].
  - cbn. auto.
  - pose proof (agree_NCODE vm1 vm2 H) as Hn.
    destruct (NCODE vm1) as [b v1 o1|f1 o1], (NCODE vm2) as [b' v2 o2|f2 o2];
      cbn in Hn; try contradiction.
    + destruct Hn as (<- & Hv & <-).
      pose proof (agree_instr host (uchar b) v1 v2 Hv) as Hi.
      destruct (instr host (uchar b) v1) as [c w1 p1|g1 p1],
               (instr host (uchar b) v2) as [c' w2 p2|g2 p2];
        cbn in Hi; try contradiction.
      * destruct Hi as (<- & Hw & <-). destruct c as [|status]; cbn.
        -- destruct (IH w1 w2 Hw) as (-> & -> & -> & Hm). auto.
        -- auto.
      * destruct Hi as (<- & <-). cbn. auto.
    + destruct Hn as (<- & <-). cbn. auto.
Qed.

(** ** Case analysis of a turn *)

(** Split a hypothesis on [instr] into the cases of the switch. *)
Ltac instr_cases opcode H :=
  unfold instr in H;
  repeat match type of H with
         | context [opcode =? ?c] =>
             destruct (Z.eqb_spec opcode c); [subst opcode|]
         end.

(** Take a successful run of a case apart into its primitive operations. *)
Ltac inv_ok :=
  repeat match goal with
         | H : bind _ _ _ = Ok _ _ _ |- _ =>
             let H1 := fresh "H" in
             apply bind_Ok_inv in H as (? & ? & ? & ? & H1 & H & ?)
         | H : PUSH _ _ = Ok _ _ _ |- _ => apply PUSH_inv in H as (? & ? & ?)
         | H : POP _ = Ok _ _ _ |- _ => apply POP_inv in H as (? & ? & ?)
         | H : (if ?c then _ else _) _ = Ok _ _ _ |- _ => destruct c eqn:?
         | H : ret _ _ = Ok _ _ _ |- _ => unfold ret in H
         | H : printf _ _ = Ok _ _ _ |- _ => unfold printf in H
         | H : load_r1 _ = Ok _ _ _ |- _ => unfold load_r1 in H
         | H : load_r2 _ = Ok _ _ _ |- _ => unfold load_r2 in H
         | H : store_r1 _ _ = Ok _ _ _ |- _ => unfold store_r1 in H
         | H : store_r2 _ _ = Ok _ _ _ |- _ => unfold store_r2 in H
         | H : skip_double _ = Ok _ _ _ |- _ => unfold skip_double in H
         | H : memcpy_code _ ?vm = Ok _ _ _ |- _ =>
             unfold memcpy_code in H;
             destruct (read_bytes (code vm) (pc vm) 8) eqn:?; [|discriminate H]
         | H : Ok _ _ _ = Ok _ _ _ |- _ => injection H as ? ? ?
         end;
  subst.

Lemma instr_sp host opcode vm c vm' out :
  instr host opcode vm = Ok c vm' out ->
  match c with
  | Break => sp vm' = sp vm + stack_effect opcode
  | Return _ =>
      if opcode =? Op.DIV
      then sp vm' = sp vm - 2 /\
           exists z, index (stack vm) (sp vm) = Some z /\ (z =? 0)%float = true
      else sp vm' = sp vm
  end.
Proof.
  intros H. instr_cases opcode H; inv_ok; cbn; try lia; auto.
  split; [lia|]. eauto.
Qed.

Lemma index_insert_ne (l : list float) (i j : Z) (v : float) :
  i <> j -> 0 <= j -> index (<[Z.to_nat j := v]> l) i = index l i.
Proof.
  intros Hne Hj. unfold index. destruct (Z.ltb_spec i 0); [reflexivity|].
  apply list_lookup_insert_ne. lia.
Qed.

Lemma instr_unknown host opcode vm :
  ~ In opcode opcodes ->
  instr host opcode vm = Ok (Return EXIT_FAILURE) vm [InvalidOpcodeError opcode].
Proof.
  intros Hno. unfold instr.
  repeat match goal with
         | |- context [opcode =? ?c] =>
             destruct (Z.eqb_spec opcode c);
             [exfalso; apply Hno; subst opcode; cbn; tauto|]
         end.
  reflexivity.
Qed.

(** ** Unknown bytes *)

(** X1: a byte that is none of the 17 opcodes ends the run at once: [run]
    prints [InvalidOpcodeError] with that byte and returns failure, the
    machine untouched but for the program counter, whatever follows in the
    code. *)
Theorem unknown_byte_ends_run host vm b fuel :
  fetches vm b -> ~ In (uchar b) opcodes ->
  run host (S fuel) vm =
    mkOutcome (Exit EXIT_FAILURE) [InvalidOpcodeError (uchar b)]
              (set_pc vm (pc vm + 1)) 1 /\
  report (run host (S fuel) vm) = Some (RuntimeError (InvalidOpcode (uchar b))).
Proof.
  intros [Hf Hmax] Hno.
  assert (H : run host (S fuel) vm =
              mkOutcome (Exit EXIT_FAILURE) [InvalidOpcodeError (uchar b)]
                        (set_pc vm (pc vm + 1)) 1).
  { cbn [run]. rewrite (NCODE_ok vm b Hf Hmax), (instr_unknown host _ _ Hno).
    reflexivity. }
  split; [exact H|]. rewrite H. reflexivity.
Qed.

Lemma unknown_byte_ends_run_witness :
  (fetches (newVM [x33; x0c; xf2] no_junk) x33 /\ ~ In (uchar x33) opcodes) /\
  report (run BigEndian 4 (newVM [x33; x0c; xf2] no_junk)) =
    Some (RuntimeError (InvalidOpcode 0x33)).
Proof.
  assert (Hf : fetches (newVM [x33; x0c; xf2] no_junk) x33)
    by (split; reflexivity).
  assert (Hno : ~ In (uchar x33) opcodes).
  { cbn. intros H. repeat (destruct H as [H|H]; [discriminate H|]). exact H. }
  split; [split; assumption|].
  exact (proj2 (unknown_byte_ends_run BigEndian _ x33 3 Hf Hno)).
Defined.

(** ** A binary operation on a single value *)

(** X2: with exactly one value on the stack, [ADD], [SUB], [MUL] and [DIV]
    pop it and then read [stack[-1]], outside the array; nothing is
    reported. *)
Theorem binary_op_on_one_value host vm opcode :
  holds vm 1 -> In opcode binary_opcodes ->
  instr host opcode vm = Undef (StackOutOfBounds (-1)) [].
Proof.
  intros [Hlen Hd] Hop. unfold depth in Hd.
  assert (Hsp : sp vm = 0) by lia.
  assert (Htop : is_Some (index (stack vm) (sp vm)))
    by (apply index_is_Some; rewrite Hlen; unfold STACK_SIZE; lia).
  destruct Htop as [b Hb].
  assert (H2 : forall B (k : float -> M B),
             (a <- POP ;; k a) (set_sp vm (sp vm - 1)) =
             Undef (StackOutOfBounds (-1)) []).
  { intros B k. apply bind_Undef. rewrite POP_outside by (cbn; lia).
    cbn. rewrite Hsp. reflexivity. }
  cbn in Hop.
  repeat (destruct Hop as [<- | Hop];
          [match goal with
           | |- instr host ?op vm = _ =>
               first [rewrite instr_ADD | rewrite instr_SUB
                     | rewrite instr_MUL | rewrite instr_DIV]
           end;
           rewrite (bind_Ok_nil _ _ _ _ _ (POP_ok _ _ Hb)); apply H2|]).
  contradiction.
Qed.

Lemma binary_op_on_one_value_witness :
  (holds vm_one_value 1 /\ In Op.SUB binary_opcodes) /\
  instr LittleEndian Op.SUB vm_one_value = Undef (StackOutOfBounds (-1)) [].
Proof.
  assert (H1 : holds vm_one_value 1) by (split; vm_compute; reflexivity).
  assert (Hop : In Op.SUB binary_opcodes) by (cbn; tauto).
  split; [split; assumption|].
  exact (binary_op_on_one_value LittleEndian vm_one_value Op.SUB H1 Hop).
Defined.

(** ** The stack effect of a turn *)

Example stack_effect_table :
  map stack_effect [Op.HALT; Op.NOP] = [0; 0] /\
  map stack_effect (Op.DCONST :: push_opcodes) = [1; 1; 1; 1; 1; 1; 1] /\
  map stack_effect binary_opcodes = [-1; -1; -1; -1] /\
  map stack_effect [Op.NEG; Op.ST1; Op.ST2; Op.PRINT] = [0; -1; -1; -1].
Proof. repeat split. Qed.

(** X3: a turn that ends in [break] moves the stack pointer by the stack
    effect of its opcode: up by one for the constants and loads, down by one
    for the binary operations, the stores and [PRINT], not at all for [NOP]
    and [NEG].  A turn that returns leaves it in place when its opcode is
    not [DIV]; a [DIV] that returns found a zero on top of the stack and
    leaves the stack pointer two lower. *)
Theorem turn_stack_effect host vm b c vm' out :
  index (code vm) (pc vm) = Some b ->
  step host vm = Ok c vm' out ->
  match c with
  | Break => depth vm' = depth vm + stack_effect (uchar b)
  | Return _ =>
      if uchar b =? Op.DIV
      then depth vm' = depth vm - 2 /\
           exists z, index (stack vm) (sp vm) = Some z /\ (z =? 0)%float = true
      else depth vm' = depth vm
  end.
Proof.
  intros Hb H. apply step_inv in H as (b' & Hb' & _ & H).
  assert (b' = b) as -> by congruence.
  apply instr_sp in H. unfold depth. cbn [sp stack set_pc] in H.
  destruct c; [lia|].
  destruct (uchar b =? Op.DIV); [|lia].
  destruct H as [H Hz]. split; [lia | exact Hz].
Qed.

Lemma turn_stack_effect_witness :
  (index (code vm_2_1) (pc vm_2_1) = Some x64 /\
   index (code vm_1_0) (pc vm_1_0) = Some x64) /\
  (exists vm',
     step LittleEndian vm_2_1 = Ok Break vm' [] /\
     depth vm_2_1 = 2 /\ depth vm' = 1) /\
  (exists vm',
     step LittleEndian vm_1_0 =
       Ok (Return EXIT_FAILURE) vm' [DividingByZeroError Op.DIV] /\
     depth vm_1_0 = 2 /\ depth vm' = 0).
Proof.
  split; [split; reflexivity|]. split.
  - eexists. split; [vm_compute; reflexivity|]. split; [reflexivity|].
    refine (turn_stack_effect LittleEndian vm_2_1 x64 Break _ [] eq_refl _).
    vm_compute. reflexivity.
  - eexists. split; [vm_compute; reflexivity|]. split; [reflexivity|].
    refine (proj1 (turn_stack_effect LittleEndian vm_1_0 x64
                     (Return EXIT_FAILURE) _ [DividingByZeroError Op.DIV]
                     eq_refl _)).
    vm_compute. reflexivity.
Defined.

Lemma instr_frame host opcode vm c vm' out :
  instr host opcode vm = Ok c vm' out ->
  length (stack vm') = length (stack vm) /\
  (forall i, i <> sp vm' -> index (stack vm') i = index (stack vm) i) /\
  (~ In opcode writing_opcodes -> stack vm' = stack vm).
Proof.
  intros H.
  assert (Hins : forall (l : list float) j v,
             0 <= j ->
             length (<[Z.to_nat j := v]> l) = length l /\
             (forall i, i <> j -> index (<[Z.to_nat j := v]> l) i = index l i))
    by (intros l j v Hj; split;
        [apply length_insert | intros i Hi; apply index_insert_ne; assumption]).
  instr_cases opcode H; inv_ok; cbn [stack sp set_slot set_sp set_pc set_r1 set_r2];
    try (split; [reflexivity|]; split; [reflexivity|]; reflexivity);
    (split; [apply Hins; cbn in *; lia|]);
    (split; [apply Hins; cbn in *; lia|]);
    intros Hno; exfalso; apply Hno; cbn; tauto.
Qed.

(** X4: a turn writes at most one slot of the stack array, the one the stack
    pointer is left at: every other slot keeps its value, and the array keeps
    its length.  The opcodes that push nothing ([HALT], [NOP], [ST1], [ST2],
    [PRINT] and unknown bytes) leave the whole array as it was: a pop erases
    nothing. *)
Theorem turn_writes_only_the_top host vm b c vm' out :
  index (code vm) (pc vm) = Some b ->
  step host vm = Ok c vm' out ->
  length (stack vm') = length (stack vm) /\
  (forall i, i <> sp vm' -> index (stack vm') i = index (stack vm) i) /\
  (~ In (uchar b) writing_opcodes -> stack vm' = stack vm).
Proof.
  intros Hb H. apply step_inv in H as (b' & Hb' & _ & H).
  assert (b' = b) as -> by congruence.
  exact (instr_frame host _ _ _ _ _ H).
Qed.

Lemma turn_writes_only_the_top_witness :
  index (code vm_2_1) (pc vm_2_1) = Some x64 /\
  exists vm',
    step LittleEndian vm_2_1 = Ok Break vm' [] /\
    sp vm' = 0 /\
    index (stack vm') 1 = Some 1%float /\
    index (stack vm') 0 = Some 2%float.
Proof.
  split; [reflexivity|]. eexists. split; [vm_compute; reflexivity|].
  split; [reflexivity|]. split; [|reflexivity].
  refine (proj1 (proj2 (turn_writes_only_the_top LittleEndian vm_2_1 x64 Break
                          _ [] eq_refl _)) 1 _).
  - vm_compute. reflexivity.
  - vm_compute. discriminate.
Defined.

(** ** What a turn prints *)

Lemma instr_output host opcode vm c vm' out :
  instr host opcode vm = Ok c vm' out ->
  match c with
  | Break =>
      (opcode = Op.PRINT /\
       exists a, index (stack vm) (sp vm) = Some a /\ out = [PrintDouble a]) \/
      (opcode <> Op.PRINT /\ In opcode opcodes /\ out = [])
  | Return status =>
      (status = EXIT_SUCCESS /\ opcode = Op.HALT /\ out = []) \/
      (status = EXIT_FAILURE /\ opcode = Op.DIV /\
       out = [DividingByZeroError Op.DIV]) \/
      (status = EXIT_FAILURE /\ ~ In opcode opcodes /\
       out = [InvalidOpcodeError opcode])
  end.
Proof.
  intros H.
  instr_cases opcode H; inv_ok; cbn [app];
    try (right; split; [discriminate|]; split; [cbn; tauto | reflexivity]);
    try (left; split; [reflexivity|]; eauto; fail);
    try (right; left; auto; fail).
  right. right. split; [reflexivity|]. split; [|reflexivity].
  cbn. intros Hin. repeat (destruct Hin as [Hin|Hin]; [congruence|]).
  exact Hin.
Qed.

(** X5: only [PRINT] prints a value, and it prints exactly the value it pops
    from the top of the stack; every other turn that ends in [break] prints
    nothing.  A turn that returns prints nothing for [HALT] (success) and one
    diagnostic line otherwise: the division diagnostic for [DIV], the invalid
    opcode diagnostic, with the byte, for a byte that is no opcode. *)
Theorem only_print_prints_a_value host vm b c vm' out :
  index (code vm) (pc vm) = Some b ->
  step host vm = Ok c vm' out ->
  match c with
  | Break =>
      (uchar b = Op.PRINT /\
       exists a, index (stack vm) (sp vm) = Some a /\ out = [PrintDouble a]) \/
      (uchar b <> Op.PRINT /\ In (uchar b) opcodes /\ out = [])
  | Return status =>
      (status = EXIT_SUCCESS /\ uchar b = Op.HALT /\ out = []) \/
      (status = EXIT_FAILURE /\ uchar b = Op.DIV /\
       out = [DividingByZeroError Op.DIV]) \/
      (status = EXIT_FAILURE /\ ~ In (uchar b) opcodes /\
       out = [InvalidOpcodeError (uchar b)])
  end.
Proof.
  intros Hb H. apply step_inv in H as (b' & Hb' & _ & H).
  assert (b' = b) as -> by congruence.
  exact (instr_output host _ _ _ _ _ H).
Qed.

Lemma only_print_prints_a_value_witness :
  index (code vm_before_print) (pc vm_before_print) = Some xf2 /\
  exists vm',
    step LittleEndian vm_before_print = Ok Break vm' [PrintDouble 1] /\
    index (stack vm_before_print) (sp vm_before_print) = Some 1%float.
Proof.
  split; [reflexivity|]. eexists. split; [vm_compute; reflexivity|].
  assert (H : step LittleEndian vm_before_print =
              Ok Break (set_pc (set_sp vm_before_print (-1)) 4) [PrintDouble 1])
    by (vm_compute; reflexivity).
  pose proof (only_print_prints_a_value LittleEndian vm_before_print xf2 Break
                _ _ eq_refl H) as [(_ & a & Ha & _)|(Hne & _)].
  - reflexivity.
  - exfalso. apply Hne. reflexivity.
Defined.

(** ** Invariants of a run *)

Lemma index_In {A} (a : list A) (i : Z) (x : A) : index a i = Some x -> In x a.
Proof.
  intros H. apply index_Some_iff in H as [_ H].
  apply list_elem_of_In, list_elem_of_lookup. eauto.
Qed.

(** What every completed turn keeps, [run] keeps. *)
Lemma run_preserves host (P : VM -> Prop) :
  (forall vm b vm1 o1 c vm2 o2,
     P vm -> NCODE vm = Ok b vm1 o1 -> instr host (uchar b) vm1 = Ok c vm2 o2 ->
     P vm2) ->
  forall fuel vm,
    P vm -> defined (run host fuel vm) -> P (machine (run host fuel vm)).
Proof.
  intros Hstep. induction fuel as [|fuel IH]; intros vm HP Hdef; cbn [run] in *.
  - exact HP.
  - destruct (NCODE vm) as [b vm1 o1|f o1] eqn:Hn.
    + destruct (instr host (uchar b) vm1) as [[|status] vm2 o2|f o2] eqn:Hi.
      * cbn. apply IH; [eapply Hstep; eauto|]. intros f. exact (Hdef f).
      * cbn. eapply Hstep; eauto.
      * exfalso. exact (Hdef f eq_refl).
    + exfalso. exact (Hdef f eq_refl).
Qed.

Lemma instr_sp_range host opcode vm c vm' out :
  instr host opcode vm = Ok c vm' out ->
  -1 <= sp vm < Z.of_nat (length (stack vm)) ->
  -1 <= sp vm' < Z.of_nat (length (stack vm)).
Proof.
  intros H Hr.
  instr_cases opcode H; inv_ok;
    cbn [stack sp set_slot set_sp set_pc set_r1 set_r2] in *;
    repeat match goal with
           | H : index _ _ = Some _ |- _ =>
               apply mk_is_Some, index_is_Some in H
           end;
    lia.
Qed.

Lemma turn_in_bounds host prog vm b vm1 o1 c vm2 o2 :
  in_bounds prog vm ->
  NCODE vm = Ok b vm1 o1 -> instr host (uchar b) vm1 = Ok c vm2 o2 ->
  in_bounds prog vm2.
Proof.
  intros (Hcode & Hlen & Hd & Hpc) Hn Hi. unfold in_bounds, depth in *.
  destruct (turn_uses_code host _ _ _ _ _ _ _ Hn Hi) as (Hc2 & Hpc2 & Hpc3).
  apply NCODE_inv in Hn as (Hb & _ & -> & _).
  destruct (instr_frame host _ _ _ _ _ Hi) as (Hl2 & _).
  pose proof (instr_sp_range host _ _ _ _ _ Hi) as Hsp.
  cbn [stack sp set_pc] in Hl2, Hsp.
  rewrite Hlen in Hsp. unfold STACK_SIZE in Hsp.
  split; [congruence|]. split; [congruence|]. split; [lia|].
  intros Hmax. rewrite Hcode in *. specialize (Hpc Hmax). specialize (Hpc3 Hmax).
  lia.
Qed.

(** X6: as long as [run] on a fresh machine has not left defined behaviour,
    the machine keeps its code and its 256 stack slots, holds between 0 and
    256 values, and (for a code of at most [INT_MAX] bytes) has its program
    counter between 0 and the length of the code. *)
Theorem fresh_run_stays_in_bounds host prog junk fuel :
  defined (run host fuel (newVM prog junk)) ->
  in_bounds prog (machine (run host fuel (newVM prog junk))).
Proof.
  apply (run_preserves host (in_bounds prog)).
  - intros vm b vm1 o1 c vm2 o2. apply turn_in_bounds.
  - unfold in_bounds, depth. cbn. repeat split; lia.
Qed.

Lemma fresh_run_stays_in_bounds_witness :
  defined (run LittleEndian 3 (newVM bytecode4 no_junk)) /\
  in_bounds bytecode4 (machine (run LittleEndian 3 (newVM bytecode4 no_junk))).
Proof.
  assert (Hd : defined (run LittleEndian 3 (newVM bytecode4 no_junk)))
    by (intros f; vm_compute; discriminate).
  split; [exact Hd|].
  exact (fresh_run_stays_in_bounds LittleEndian bytecode4 no_junk 3 Hd).
Defined.

Lemma quiet_ret {A} (a : A) : quiet (ret a).
Proof. intros vm x H. exact H. Qed.

Lemma quiet_bind {A B} (m : M A) (k : A -> M B) :
  quiet m -> (forall a, quiet (k a)) -> quiet (bind m k).
Proof.
  intros Hm Hk vm x. specialize (Hm vm x). unfold bind.
  destruct (m vm) as [a vm1 o1|f o1]; [|exact Hm].
  specialize (Hk a vm1 x).
  destruct (k a vm1) as [b vm2 o2|f o2]; cbn in *;
    rewrite in_app_iff; tauto.
Qed.

Lemma quiet_PUSH v : quiet (PUSH v).
Proof.
  intros vm x. unfold PUSH. destruct (INT_MAX <=? sp vm); [cbn; tauto|].
  destruct (index (stack vm) (sp vm + 1)); cbn; tauto.
Qed.

Lemma quiet_POP : quiet POP.
Proof.
  intros vm x. unfold POP. destruct (index (stack vm) (sp vm)); cbn; tauto.
Qed.

Lemma quiet_NCODE : quiet NCODE.
Proof.
  intros vm x. unfold NCODE. destruct (index (code vm) (pc vm)); [|cbn; tauto].
  destruct (INT_MAX <=? pc vm); cbn; tauto.
Qed.

Lemma quiet_memcpy_code host : quiet (memcpy_code host).
Proof.
  intros vm x. unfold memcpy_code.
  destruct (read_bytes (code vm) (pc vm) 8); cbn; tauto.
Qed.

Lemma quiet_skip_double : quiet skip_double.
Proof. intros vm x H. exact H. Qed.

Lemma quiet_load_r1 : quiet load_r1.
Proof. intros vm x H. exact H. Qed.

Lemma quiet_load_r2 : quiet load_r2.
Proof. intros vm x H. exact H. Qed.

Lemma quiet_store_r1 v : quiet (store_r1 v).
Proof. intros vm x H. exact H. Qed.

Lemma quiet_store_r2 v : quiet (store_r2 v).
Proof. intros vm x H. exact H. Qed.

Lemma quiet_division_diagnostic opcode : quiet (printf (DividingByZeroError opcode)).
Proof. intros vm x [H|H]; [discriminate H | exact H]. Qed.

Lemma quiet_opcode_diagnostic opcode : quiet (printf (InvalidOpcodeError opcode)).
Proof. intros vm x [H|H]; [discriminate H | exact H]. Qed.

Create HintDb quiet discriminated.
#[local] Hint Resolve quiet_ret quiet_bind quiet_PUSH quiet_POP quiet_memcpy_code
  quiet_skip_double quiet_load_r1 quiet_load_r2 quiet_store_r1 quiet_store_r2
  quiet_division_diagnostic quiet_opcode_diagnostic : quiet.
#[local] Hint Extern 2 (quiet (if ?c then _ else _)) => destruct c : quiet.

Lemma instr_quiet host opcode : opcode <> Op.PRINT -> quiet (instr host opcode).
Proof.
  intros Hne. unfold instr.
  repeat match goal with
         | |- context [opcode =? ?c] =>
             destruct (Z.eqb_spec opcode c); [try contradiction|]
         end;
  eauto 12 with quiet.
Qed.

Lemma uchar_inj b b' : uchar b = uchar b' -> b = b'.
Proof.
  unfold uchar. intros H. apply N2Z.inj in H.
  apply (f_equal Byte.of_N) in H. rewrite !Byte.of_to_N in H.
  congruence.
Qed.

Lemma run_output_no_print host fuel : forall vm,
  ~ In xf2 (code vm) ->
  forall a, ~ In (PrintDouble a) (output (run host fuel vm)).
Proof.
  induction fuel as [|fuel IH]; intros vm Hno a; cbn [run].
  - cbn. tauto.
  - pose proof (quiet_NCODE vm a) as Hq.
    destruct (NCODE vm) as [b vm1 o1|f o1] eqn:Hn; [|exact Hq].
    apply NCODE_inv in Hn as (Hb & _ & -> & ->).
    assert (Hne : uchar b <> Op.PRINT).
    { intros Heq. apply Hno. apply index_In in Hb.
      rewrite <- (uchar_inj b xf2 Heq). exact Hb. }
    pose proof (instr_quiet host _ Hne (set_pc vm (pc vm + 1)) a) as Hi.
    destruct (instr host (uchar b) _) as [c vm2 o2|f o2] eqn:Hinstr;
      [|exact Hi].
    destruct c; cbn in *; [|exact Hi].
    rewrite in_app_iff. intros [H|H]; [exact (Hi H)|].
    revert H. apply IH.
    rewrite (instr_keeps_code host _ _ _ _ _ Hinstr). exact Hno.
Qed.

Lemma run_keeps_register host (reg : VM -> float) (stored : byte) :
  (forall vm i, reg (set_pc vm i) = reg vm) ->
  (forall opcode, opcode <> uchar stored -> keeps reg (instr host opcode)) ->
  forall fuel vm,
    ~ In stored (code vm) -> defined (run host fuel vm) ->
    reg (machine (run host fuel vm)) = reg vm.
Proof.
  intros Hpc Hkeeps fuel vm Hno Hdef.
  apply (run_preserves host
           (fun vm' => code vm' = code vm /\ reg vm' = reg vm)); auto.
  intros vm0 b vm1 o1 c vm2 o2 [Hc Hr] Hn Hi.
  apply NCODE_inv in Hn as (Hb & _ & -> & _).
  split.
  - rewrite (instr_keeps_code host _ _ _ _ _ Hi). exact Hc.
  - rewrite <- Hr, <- (Hpc vm0 (pc vm0 + 1)).
    refine (Hkeeps _ _ _ _ _ _ Hi).
    intros Heq. apply Hno. rewrite <- Hc. apply index_In in Hb.
    rewrite <- (uchar_inj b stored Heq). exact Hb.
Qed.

(** ** Programs without a given byte *)

(** X7: a program that contains the [PRINT] byte nowhere prints no value,
    for as long as its run on a fresh machine is defined. *)
Theorem no_print_byte_no_value_printed host prog junk fuel a :
  defined (run host fuel (newVM prog junk)) ->
  ~ In xf2 prog ->
  ~ In (PrintDouble a) (output (run host fuel (newVM prog junk))).
Proof.
  intros _ Hno. apply run_output_no_print. exact Hno.
Qed.

(** X8: a program that contains the [ST1] byte nowhere leaves [r1] at 0.0 for
    as long as its run is defined, and likewise [ST2] and [r2]: the registers
    have no other writer. *)
Theorem no_store_byte_register_stays_zero host prog junk fuel :
  defined (run host fuel (newVM prog junk)) ->
  (~ In xf4 prog -> r1 (machine (run host fuel (newVM prog junk))) = 0%float) /\
  (~ In xf6 prog -> r2 (machine (run host fuel (newVM prog junk))) = 0%float).
Proof.
  intros Hdef. split; intros Hno.
  - apply (run_keeps_register host r1 xf4); auto.
    intros opcode Hne. apply instr_keeps_r1. exact Hne.
  - apply (run_keeps_register host r2 xf6); auto.
    intros opcode Hne. apply instr_keeps_r2. exact Hne.
Qed.

Lemma no_print_byte_no_value_printed_witness :
  (defined (run LittleEndian 5 (newVM [x0d; x0c; x60; x00] no_junk)) /\
   ~ In xf2 [x0d; x0c; x60; x00]) /\
  ~ In (PrintDouble 3) (output (run LittleEndian 5 (newVM [x0d; x0c; x60; x00] no_junk))).
Proof.
  assert (Hd : defined (run LittleEndian 5 (newVM [x0d; x0c; x60; x00] no_junk)))
    by (intros f; vm_compute; discriminate).
  assert (Hno : ~ In xf2 [x0d; x0c; x60; x00]).
  { cbn. intros H. repeat (destruct H as [H|H]; [discriminate H|]). exact H. }
  split; [split; assumption|].
  exact (no_print_byte_no_value_printed LittleEndian _ no_junk 5 3 Hd Hno).
Defined.

Lemma no_store_byte_register_stays_zero_witness :
  (defined (run LittleEndian 3 (newVM [x0d; xf6; xf5; x00] no_junk)) /\
   ~ In xf4 [x0d; xf6; xf5; x00]) /\
  r1 (machine (run LittleEndian 3 (newVM [x0d; xf6; xf5; x00] no_junk))) = 0%float /\
  r2 (machine (run LittleEndian 3 (newVM [x0d; xf6; xf5; x00] no_junk))) = 2%float.
Proof.
  assert (Hd : defined (run LittleEndian 3 (newVM [x0d; xf6; xf5; x00] no_junk)))
    by (intros f; vm_compute; discriminate).
  assert (Hno : ~ In xf4 [x0d; xf6; xf5; x00]).
  { cbn. intros H. repeat (destruct H as [H|H]; [discriminate H|]). exact H. }
  split; [split; assumption|]. split; [|reflexivity].
  exact (proj1 (no_store_byte_register_stays_zero LittleEndian _ no_junk 3 Hd) Hno).
Defined.

(** ** When a turn is defined *)

Lemma runs_through_needs host opcode vm :
  runs_through host opcode vm ->
  length (stack vm) = STACK_SIZE -> 0 <= depth vm <= 256 ->
  has_what_it_needs opcode vm.
Proof.
  intros (c & vm' & out & H) Hlen Hd.
  unfold has_what_it_needs, depth, operands, stack_effect in *.
  cbn [existsb app push_opcodes binary_opcodes].
  unfold instr in H.
  repeat match type of H with
         | context [opcode =? ?c] =>
             destruct (Z.eqb_spec opcode c); [subst opcode|]
         end;
    inv_ok; cbn [stack sp set_slot set_sp set_pc set_r1 set_r2 orb] in *;
    repeat match goal with
           | H : index _ _ = Some _ |- _ =>
               apply mk_is_Some, index_is_Some in H
           end;
    rewrite ?Hlen in *; unfold STACK_SIZE in *;
    cbn -[read_bytes];
    (split; [lia|]); (split; [intros; lia|]);
    intros Heq; try discriminate Heq; try contradiction; eauto.
Qed.

Lemma needs_runs_through host opcode vm :
  length (stack vm) = STACK_SIZE -> 0 <= depth vm <= 256 ->
  has_what_it_needs opcode vm -> runs_through host opcode vm.
Proof.
  intros Hlen Hd (Hops & Hroom & Hbytes). unfold runs_through, depth in *.
  destruct (in_dec Z.eq_dec opcode opcodes) as [Hin|Hno];
    [|rewrite (instr_unknown host _ _ Hno); eauto].
  cbn in Hin.
  repeat (destruct Hin as [<-|Hin]; [|]); try contradiction;
    match type of Hops with
    | context [operands ?o] =>
        let v := eval vm_compute in (operands o) in
        change (operands o) with v in Hops
    end;
    try specialize (Hroom eq_refl);
    try (destruct (Hbytes eq_refl) as [bs Hbs]);
    lazy beta iota delta
      [instr Z.eqb Pos.eqb Op.HALT Op.NOP Op.DCONST_M1 Op.DCONST_0 Op.DCONST_1
       Op.DCONST_2 Op.DCONST Op.ADD Op.MUL Op.SUB Op.DIV Op.NEG Op.LD1 Op.ST1
       Op.LD2 Op.ST2 Op.PRINT];
    unfold bind, ret, printf, POP, PUSH, memcpy_code, skip_double,
      load_r1, load_r2, store_r1, store_r2;
    repeat (cbn [stack sp code pc set_slot set_sp set_pc set_r1 set_r2];
            match goal with
            | |- context [index (stack vm) ?i] =>
                let E := fresh "E" in
                destruct (index (stack vm) i) eqn:E;
                [|apply index_None_iff in E; rewrite Hlen in E;
                  unfold STACK_SIZE in E; lia]
            | |- context [INT_MAX <=? ?x] =>
                destruct (Z.leb_spec INT_MAX x); [unfold INT_MAX in *; lia|]
            | |- context [(?b =? 0)%float] => destruct (b =? 0)%float
            | |- context [read_bytes (code vm) (pc vm) 8] => rewrite Hbs
            end);
    eauto.
Qed.

(** X9: on a machine with its 256 stack slots holding between 0 and 256
    values, the case of an opcode runs to its end exactly when the stack
    holds the operands it pops (two for the binary operations, one for [NEG],
    the stores and [PRINT]), has a free slot when it pushes onto the stack
    (the constants and the loads), and, for [DCONST], the 8 operand bytes are
    inside the code.  Nothing else makes a turn leave defined behaviour. *)
Theorem turn_defined_iff host opcode vm :
  length (stack vm) = STACK_SIZE -> 0 <= depth vm <= 256 ->
  (runs_through host opcode vm <-> has_what_it_needs opcode vm).
Proof.
  intros Hlen Hd. split.
  - intros H. apply (runs_through_needs host); assumption.
  - apply needs_runs_through; assumption.
Qed.

Lemma turn_defined_iff_witness :
  (length (stack vm_one_value) = STACK_SIZE /\ 0 <= depth vm_one_value <= 256) /\
  runs_through LittleEndian Op.NEG vm_one_value /\
  ~ runs_through LittleEndian Op.MUL vm_one_value.
Proof.
  assert (Hl : length (stack vm_one_value) = STACK_SIZE) by (vm_compute; reflexivity).
  assert (Hd : 0 <= depth vm_one_value <= 256) by (vm_compute; split; discriminate).
  split; [split; assumption|]. split.
  - apply (proj2 (turn_defined_iff LittleEndian Op.NEG vm_one_value Hl Hd)).
    split; [vm_compute; discriminate|]. split; intros H; discriminate H.
  - intros H.
    apply (proj1 (turn_defined_iff LittleEndian Op.MUL vm_one_value Hl Hd)) in H.
    destruct H as (H & _). vm_compute in H. apply H. reflexivity.
Defined.

(** ** Bytes after the end of a run *)

Lemma index_app_l {A} (a rest : list A) (i : Z) (x : A) :
  index a i = Some x -> index (a ++ rest) i = Some x.
Proof.
  unfold index. destruct (i <? 0); [discriminate|].
  apply lookup_app_l_Some.
Qed.

Lemma read_bytes_app_l (a rest : list byte) (n : nat) : forall i bs,
  read_bytes a i n = Some bs -> read_bytes (a ++ rest) i n = Some bs.
Proof.
  induction n as [|n IH]; intros i bs; cbn [read_bytes]; [auto|].
  destruct (index a i) as [b|] eqn:Hb; [|discriminate].
  destruct (read_bytes a (i + 1) n) as [bs'|] eqn:Hbs; [|discriminate].
  intros H. rewrite (index_app_l _ _ _ _ Hb), (IH _ _ Hbs). exact H.
Qed.

Lemma ext_ret {A} rest (a : A) : M_ext rest (ret a).
Proof. intros vm. reflexivity. Qed.

Lemma ext_bind {A B} rest (m : M A) (k : A -> M B) :
  M_ext rest m -> (forall a, M_ext rest (k a)) -> M_ext rest (bind m k).
Proof.
  intros Hm Hk vm. specialize (Hm vm). unfold bind.
  destruct (m vm) as [a vm1 o1|f o1]; cbn in Hm.
  - rewrite Hm. specialize (Hk a vm1).
    destruct (k a vm1) as [b vm2 o2|f o2]; cbn in Hk |- *.
    + rewrite Hk. reflexivity.
    + destruct f; cbn; try rewrite Hk; auto.
  - destruct f; cbn; try rewrite Hm; auto.
Qed.

Lemma ext_printf rest e : M_ext rest (printf e).
Proof. intros vm. reflexivity. Qed.

Lemma ext_load_r1 rest : M_ext rest load_r1.
Proof. intros vm. reflexivity. Qed.

Lemma ext_load_r2 rest : M_ext rest load_r2.
Proof. intros vm. reflexivity. Qed.

Lemma ext_store_r1 rest v : M_ext rest (store_r1 v).
Proof. intros vm. reflexivity. Qed.

Lemma ext_store_r2 rest v : M_ext rest (store_r2 v).
Proof. intros vm. reflexivity. Qed.

Lemma ext_skip_double rest : M_ext rest skip_double.
Proof. intros vm. reflexivity. Qed.

Lemma ext_PUSH rest v : M_ext rest (PUSH v).
Proof.
  intros vm. unfold PUSH. cbn [sp stack with_code].
  destruct (INT_MAX <=? sp vm); [reflexivity|].
  destruct (index (stack vm) (sp vm + 1)); reflexivity.
Qed.

Lemma ext_POP rest : M_ext rest POP.
Proof.
  intros vm. unfold POP. cbn [sp stack with_code].
  destruct (index (stack vm) (sp vm)); reflexivity.
Qed.

Lemma ext_NCODE rest : M_ext rest NCODE.
Proof.
  intros vm. unfold NCODE. cbn [pc code with_code].
  destruct (index (code vm) (pc vm)) as [b|] eqn:Hb; [|exact I].
  rewrite (index_app_l _ rest _ _ Hb).
  destruct (INT_MAX <=? pc vm); reflexivity.
Qed.

Lemma ext_memcpy_code rest host : M_ext rest (memcpy_code host).
Proof.
  intros vm. unfold memcpy_code. cbn [pc code with_code].
  destruct (read_bytes (code vm) (pc vm) 8) as [bs|] eqn:Hbs; [|exact I].
  rewrite (read_bytes_app_l _ rest _ _ _ Hbs). reflexivity.
Qed.

Create HintDb ext discriminated.
#[local] Hint Resolve ext_ret ext_bind ext_printf ext_load_r1 ext_load_r2
  ext_store_r1 ext_store_r2 ext_skip_double ext_PUSH ext_POP
  ext_memcpy_code : ext.
#[local] Hint Extern 2 (M_ext _ (if ?c then _ else _)) => destruct c : ext.

Lemma ext_instr rest host opcode : M_ext rest (instr host opcode).
Proof.
  unfold instr.
  repeat match goal with
         | |- context [opcode =? ?c] => destruct (opcode =? c)
         end;
  eauto 12 with ext.
Qed.

Lemma ext_run host rest fuel : forall vm,
  inside_code (run host fuel vm) ->
  run host fuel (with_code vm (code vm ++ rest)) =
  mkOutcome (result_of (run host fuel vm)) (output (run host fuel vm))
            (with_code (machine (run host fuel vm))
                       (code (machine (run host fuel vm)) ++ rest))
            (decoded (run host fuel vm)).
Proof.
  induction fuel as [|fuel IH]; intros vm Hin; cbn [run] in *; [reflexivity|].
  pose proof (ext_NCODE rest vm) as Hn.
  destruct (NCODE vm) as [b vm1 o1|f o1]; cbn in Hn.
  - rewrite Hn. pose proof (ext_instr rest host (uchar b) vm1) as Hi.
    destruct (instr host (uchar b) vm1) as [[|status] vm2 o2|f o2]; cbn in Hi.
    + rewrite Hi. cbn in Hin |- *. rewrite (IH vm2 Hin). reflexivity.
    + rewrite Hi. reflexivity.
    + destruct f; try (rewrite Hi; reflexivity).
      exfalso. exact (Hin _ _ eq_refl).
  - destruct f; try (rewrite Hn; reflexivity).
    exfalso. exact (Hin _ _ eq_refl).
Qed.

(** X10: a program whose run on a fresh machine is defined to its end (it
    returns) runs the same with any bytes appended to it: same result, same
    output, same number of opcodes decoded.  Bytes after the point where
    [run] returns are never looked at. *)
Theorem trailing_bytes_are_ignored host prog rest junk :
  defined (execute host prog junk) ->
  result_of (execute host (prog ++ rest) junk) = result_of (execute host prog junk) /\
  output (execute host (prog ++ rest) junk) = output (execute host prog junk) /\
  decoded (execute host (prog ++ rest) junk) = decoded (execute host prog junk) /\
  report (execute host (prog ++ rest) junk) = report (execute host prog junk).
Proof.
  intros Hdef.
  assert (Hin : inside_code (execute host prog junk))
    by (intros i n; apply Hdef).
  unfold execute in *.
  pose proof (ext_run host rest (S (length prog)) (newVM prog junk) Hin) as H.
  change (with_code (newVM prog junk) (code (newVM prog junk) ++ rest))
    with (newVM (prog ++ rest) junk) in H.
  assert (Hrun : result_of (run host (S (length prog)) (newVM prog junk))
                 <> Running).
  { apply run_bound. rewrite remaining_newVM. lia. }
  rewrite (run_more_fuel host (S (length prog)) (newVM (prog ++ rest) junk)
             (S (length (prog ++ rest)))).
  - rewrite H. unfold report. cbn. auto.
  - rewrite H. exact Hrun.
  - rewrite length_app. lia.
Qed.

Lemma trailing_bytes_are_ignored_witness :
  defined (execute LittleEndian bytecode no_junk) /\
  output (execute LittleEndian (bytecode ++ [x33; x60; xf2]) no_junk) =
    [PrintDouble 1].
Proof.
  assert (Hin : defined (execute LittleEndian bytecode no_junk))
    by (intros f; vm_compute; discriminate).
  split; [exact Hin|].
  exact (proj1 (proj2 (trailing_bytes_are_ignored LittleEndian bytecode
                         [x33; x60; xf2] no_junk Hin))).
Defined.

(** ** Round trips *)

Lemma instr_NEG host :
  instr host Op.NEG = (b <- POP ;; PUSH (- b)%float ;; ret Break).
Proof. reflexivity. Qed.

Lemma instr_ST1 host :
  instr host Op.ST1 = (b <- POP ;; store_r1 b ;; ret Break).
Proof. reflexivity. Qed.

Lemma instr_ST2 host :
  instr host Op.ST2 = (b <- POP ;; store_r2 b ;; ret Break).
Proof. reflexivity. Qed.

Lemma instr_LD1 host :
  instr host Op.LD1 = (v <- load_r1 ;; PUSH v ;; ret Break).
Proof. reflexivity. Qed.

Lemma instr_LD2 host :
  instr host Op.LD2 = (v <- load_r2 ;; PUSH v ;; ret Break).
Proof. reflexivity. Qed.

(** A push onto the slot just popped. *)
Lemma push_back v vm :
  length (stack vm) = STACK_SIZE ->
  is_Some (index (stack vm) (sp vm)) ->
  (PUSH v ;; ret Break) (set_sp vm (sp vm - 1)) =
  Ok Break (set_slot vm (sp vm) v) [].
Proof.
  intros Hlen Hin. apply index_is_Some in Hin.
  rewrite Hlen in Hin. unfold STACK_SIZE in Hin.
  rewrite push_break; cbn [sp stack set_sp]; rewrite ?Hlen;
    unfold INT_MAX, STACK_SIZE; try lia.
  unfold set_slot. cbn. replace (sp vm - 1 + 1) with (sp vm) by lia.
  reflexivity.
Qed.

Lemma set_slot_same vm b :
  index (stack vm) (sp vm) = Some b ->
  <[Z.to_nat (sp vm) := b]> (stack vm) = stack vm.
Proof.
  intros H. apply index_Some_iff in H as [_ H]. apply list_insert_id, H.
Qed.

(** X11: a store followed by the load of the same register puts the stored
    value back where it was: after [ST1, LD1] the machine is as before but
    for [r1], which holds the top of the stack, and likewise [ST2, LD2] and
    [r2]. *)
Theorem store_then_load_restores_stack host vm b :
  length (stack vm) = STACK_SIZE ->
  index (stack vm) (sp vm) = Some b ->
  (exists vm1,
     instr host Op.ST1 vm = Ok Break vm1 [] /\
     instr host Op.LD1 vm1 = Ok Break (set_r1 vm b) []) /\
  (exists vm2,
     instr host Op.ST2 vm = Ok Break vm2 [] /\
     instr host Op.LD2 vm2 = Ok Break (set_r2 vm b) []).
Proof.
  intros Hlen Hb. split.
  - exists (set_r1 (set_sp vm (sp vm - 1)) b). split.
    + rewrite instr_ST1, (bind_Ok_nil _ _ _ _ _ (POP_ok _ _ Hb)). reflexivity.
    + rewrite instr_LD1. erewrite bind_Ok_nil by reflexivity.
      change (set_r1 (set_sp vm (sp vm - 1)) b)
        with (set_sp (set_r1 vm b) (sp (set_r1 vm b) - 1)).
      rewrite push_back; cbn [stack sp set_r1]; eauto.
      unfold set_slot, set_r1. cbn. rewrite (set_slot_same vm b Hb).
      reflexivity.
  - exists (set_r2 (set_sp vm (sp vm - 1)) b). split.
    + rewrite instr_ST2, (bind_Ok_nil _ _ _ _ _ (POP_ok _ _ Hb)). reflexivity.
    + rewrite instr_LD2. erewrite bind_Ok_nil by reflexivity.
      change (set_r2 (set_sp vm (sp vm - 1)) b)
        with (set_sp (set_r2 vm b) (sp (set_r2 vm b) - 1)).
      rewrite push_back; cbn [stack sp set_r2]; eauto.
      unfold set_slot, set_r2. cbn. rewrite (set_slot_same vm b Hb).
      reflexivity.
Qed.

Lemma store_then_load_restores_stack_witness :
  (length (stack vm_one_value) = STACK_SIZE /\
   index (stack vm_one_value) (sp vm_one_value) = Some 2%float) /\
  exists vm1,
    instr BigEndian Op.ST1 vm_one_value = Ok Break vm1 [] /\
    instr BigEndian Op.LD1 vm1 = Ok Break (set_r1 vm_one_value 2) [].
Proof.
  assert (Hl : length (stack vm_one_value) = STACK_SIZE) by (vm_compute; reflexivity).
  assert (Hb : index (stack vm_one_value) (sp vm_one_value) = Some 2%float)
    by reflexivity.
  split; [split; assumption|].
  exact (proj1 (store_then_load_restores_stack BigEndian vm_one_value 2 Hl Hb)).
Defined.

Lemma opp_involutive (x : float) : (- - x)%float = x.
Proof.
  apply Prim2SF_inj. rewrite !opp_spec.
  destruct (Prim2SF x) as [s|s| |s m e]; cbn; rewrite ?negb_involutive; reflexivity.
Qed.

(** X12: two [NEG] in a row leave the machine exactly as it was: the top of
    the stack is negated in place, and negated back. *)
Theorem neg_twice_is_identity host vm b :
  length (stack vm) = STACK_SIZE ->
  index (stack vm) (sp vm) = Some b ->
  exists vm1,
    instr host Op.NEG vm = Ok Break vm1 [] /\
    index (stack vm1) (sp vm1) = Some (- b)%float /\
    instr host Op.NEG vm1 = Ok Break vm [].
Proof.
  intros Hlen Hb.
  assert (Hin : 0 <= sp vm < Z.of_nat (length (stack vm)))
    by (apply index_is_Some; eauto).
  assert (Htop : index (<[Z.to_nat (sp vm) := (- b)%float]> (stack vm)) (sp vm)
                 = Some (- b)%float).
  { apply index_Some_iff. split; [lia|]. apply list_lookup_insert_eq. lia. }
  exists (set_slot vm (sp vm) (- b)%float). split; [|split].
  - rewrite instr_NEG, (bind_Ok_nil _ _ _ _ _ (POP_ok _ _ Hb)).
    apply push_back; eauto.
  - exact Htop.
  - rewrite instr_NEG.
    rewrite (bind_Ok_nil _ _ _ _ _ (POP_ok (set_slot vm (sp vm) (- b)) _ Htop)).
    rewrite push_back.
    + unfold set_slot. cbn. rewrite list_insert_insert_eq, opp_involutive.
      rewrite (set_slot_same vm b Hb). destruct vm; reflexivity.
    + cbn. rewrite length_insert. exact Hlen.
    + eexists. exact Htop.
Qed.

Lemma neg_twice_is_identity_witness :
  (length (stack vm_one_value) = STACK_SIZE /\
   index (stack vm_one_value) (sp vm_one_value) = Some 2%float) /\
  exists vm1,
    instr LittleEndian Op.NEG vm_one_value = Ok Break vm1 [] /\
    index (stack vm1) (sp vm1) = Some (- 2)%float /\
    instr LittleEndian Op.NEG vm1 = Ok Break vm_one_value [].
Proof.
  assert (Hl : length (stack vm_one_value) = STACK_SIZE) by (vm_compute; reflexivity).
  assert (Hb : index (stack vm_one_value) (sp vm_one_value) = Some 2%float)
    by reflexivity.
  split; [split; assumption|].
  exact (neg_twice_is_identity LittleEndian vm_one_value 2 Hl Hb).
Defined.

(** ** Machines on the heap *)

Lemma hbind_HOk {A B} (m : Heap.H A) (k : A -> Heap.H B) h a h1 out1 :
  m h = Heap.HOk a h1 out1 ->
  Heap.hbind m k h = after_output out1 (k a h1).
Proof. intros Hm. unfold Heap.hbind. rewrite Hm. reflexivity. Qed.

Lemma hbind_HUndef {A B} (m : Heap.H A) (k : A -> Heap.H B) h why out :
  m h = Heap.HUndef why out -> Heap.hbind m k h = Heap.HUndef why out.
Proof. intros Hm. unfold Heap.hbind. rewrite Hm. reflexivity. Qed.

Lemma after_nil {A} (r : Heap.hres A) : after_output [] r = r.
Proof. destruct r; reflexivity. Qed.

Lemma lookup_pair_fst {A} (h : list A) x y : (h ++ [x; y]) !! length h = Some x.
Proof. rewrite lookup_app_r by lia. rewrite Nat.sub_diag. reflexivity. Qed.

Lemma lookup_pair_snd {A} (h : list A) x y :
  (h ++ [x; y]) !! S (length h) = Some y.
Proof.
  rewrite lookup_app_r by lia.
  replace (S (length h) - length h)%nat with 1%nat by lia. reflexivity.
Qed.

Lemma insert_pair_fst {A} (h : list A) x y z :
  <[length h := z]> (h ++ [x; y]) = h ++ [z; y].
Proof.
  rewrite insert_app_r_alt by lia. rewrite Nat.sub_diag. reflexivity.
Qed.

Lemma insert_pair_snd {A} (h : list A) x y z :
  <[S (length h) := z]> (h ++ [x; y]) = h ++ [x; z].
Proof.
  rewrite insert_app_r_alt by lia.
  replace (S (length h) - length h)%nat with 1%nat by lia. reflexivity.
Qed.

(** The machine [newVM] makes: its struct and its stack array are the two
    newest blocks. *)
Lemma newVM_heap prog junk h :
  Heap.newVM prog junk h =
  Heap.HOk (length h)
    (h ++ [Some (Heap.Machine
                   (Heap.mkStruct 0%float 0%float prog (S (length h)) 0 (-1)));
           Some (Heap.Doubles (malloc_doubles STACK_SIZE junk))]) [].
Proof.
  unfold Heap.newVM, Heap.hbind, Heap.malloc, Heap.store, Heap.hret.
  rewrite <- !app_assoc. cbn [app]. rewrite length_app. cbn [length].
  rewrite Nat.add_1_r, lookup_pair_fst, insert_pair_fst. reflexivity.
Qed.

Lemma run_heap host h s a :
  Heap.f_stack s = S (length h) ->
  Heap.run host (length h)
    (h ++ [Some (Heap.Machine s); Some (Heap.Doubles a)]) =
  let o := run_machine host (Heap.view s a) in
  match result_of o with
  | Exit status =>
      Heap.HOk status
        (h ++ [Some (Heap.Machine (Heap.struct_of (machine o) (S (length h))));
               Some (Heap.Doubles (stack (machine o)))])
        (output o)
  | r => Heap.HUndef (Heap.InRun r) (output o)
  end.
Proof.
  intros Hq. unfold Heap.run.
  erewrite hbind_HOk
    by (unfold Heap.load_machine; rewrite lookup_pair_fst; reflexivity).
  rewrite after_nil.
  erewrite hbind_HOk
    by (unfold Heap.load_doubles; rewrite Hq, lookup_pair_snd; reflexivity).
  rewrite after_nil. cbv zeta.
  destruct (result_of (run_machine host (Heap.view s a))) as [status|f|];
    try reflexivity.
  unfold Heap.hbind, Heap.store, Heap.print, Heap.hret.
  rewrite lookup_pair_fst, insert_pair_fst, Hq, lookup_pair_snd, insert_pair_snd.
  cbn [app]. rewrite app_nil_r. reflexivity.
Qed.

Lemma delVM_heap h s a :
  Heap.f_stack s = S (length h) ->
  Heap.delVM (length h) (h ++ [Some (Heap.Machine s); Some (Heap.Doubles a)]) =
  Heap.HOk tt (h ++ [None; None]) [].
Proof.
  intros Hq. unfold Heap.delVM, Heap.hbind, Heap.load_machine, Heap.free.
  rewrite lookup_pair_fst, Hq, lookup_pair_snd, insert_pair_snd.
  rewrite lookup_pair_fst, insert_pair_fst. reflexivity.
Qed.

(** A machine made, run and deleted, and what comes after it. *)
Lemma lifetime_then {B} host prog junk (k : Heap.block -> Z -> Heap.H B) h :
  Heap.hbind (Heap.newVM prog junk) (fun vm =>
  Heap.hbind (Heap.run host vm) (fun status =>
  Heap.hbind (Heap.delVM vm) (fun _ => k vm status))) h =
  let o := execute host prog junk in
  match result_of o with
  | Exit status =>
      after_output (output o) (k (length h) status (h ++ [None; None]))
  | r => Heap.HUndef (Heap.InRun r) (output o)
  end.
Proof.
  rewrite (hbind_HOk _ _ _ _ _ _ (newVM_heap prog junk h)), after_nil.
  pose proof (run_heap host h
                (Heap.mkStruct 0%float 0%float prog (S (length h)) 0 (-1))
                (malloc_doubles STACK_SIZE junk) eq_refl) as Hrun.
  change (run_machine host (Heap.view _ _)) with (execute host prog junk) in Hrun.
  cbv zeta in *.
  destruct (result_of (execute host prog junk)) as [status|f|].
  - rewrite (hbind_HOk _ _ _ _ _ _ Hrun). f_equal.
    erewrite hbind_HOk by (apply delVM_heap; reflexivity).
    apply after_nil.
  - exact (hbind_HUndef _ _ _ _ _ Hrun).
  - exact (hbind_HUndef _ _ _ _ _ Hrun).
Qed.

Lemma live_after_frees h p :
  Heap.live (h ++ [None; None]) p <-> Heap.live h p.
Proof.
  unfold Heap.live. split; intros [o Ho]; exists o.
  - destruct (Nat.lt_ge_cases p (length h)) as [Hlt|Hge].
    + rewrite lookup_app_l in Ho by exact Hlt. exact Ho.
    + rewrite lookup_app_r in Ho by exact Hge.
      destruct (p - length h)%nat as [|[|n]]; discriminate Ho.
  - apply lookup_app_l_Some. exact Ho.
Qed.

(** X13: a machine made by [newVM], run, and deleted by [delVM] gives the exit
    status and the output of its run and leaves the heap with the blocks
    allocated that were allocated before: the machine and its stack array are
    both freed, and nothing else is.  When the run does not return, nothing
    is freed. *)
Theorem machine_lifetime_leaves_heap host prog junk h :
  lifetime host prog junk h =
    match result_of (execute host prog junk) with
    | Exit status =>
        Heap.HOk status (h ++ [None; None]) (output (execute host prog junk))
    | r => Heap.HUndef (Heap.InRun r) (output (execute host prog junk))
    end /\
  (forall p, Heap.live (h ++ [None; None]) p <-> Heap.live h p).
Proof.
  split; [|apply live_after_frees].
  unfold lifetime. rewrite lifetime_then. cbv zeta.
  destruct (result_of (execute host prog junk)); try reflexivity.
  cbn. rewrite app_nil_r. reflexivity.
Qed.

(** X14: a machine cannot be used once deleted: after [delVM(vm)], both a
    second [delVM(vm)] and [run(vm)] go through a dangling pointer. *)
Theorem deleted_machine_dangles host vm h h' out :
  Heap.delVM vm h = Heap.HOk tt h' out ->
  Heap.delVM vm h' = Heap.HUndef (Heap.Dangling vm) [] /\
  Heap.run host vm h' = Heap.HUndef (Heap.Dangling vm) [] /\
  ~ Heap.live h' vm.
Proof.
  unfold Heap.delVM, Heap.hbind, Heap.load_machine, Heap.free at 2.
  destruct (h !! vm) as [[[|s|a]|]|] eqn:Hvm; try discriminate.
  destruct (Heap.free (Heap.f_stack s) h) as [[] h1 o1|] eqn:Hfree;
    [|discriminate].
  destruct (h1 !! vm) as [[o|]|] eqn:Hvm1; try discriminate.
  intros H. injection H as <- _.
  assert (Hnone : <[vm := None]> h1 !! vm = Some None).
  { apply list_lookup_insert_eq. apply lookup_lt_Some in Hvm1. exact Hvm1. }
  split; [|split].
  - rewrite Hnone. reflexivity.
  - unfold Heap.run, Heap.hbind, Heap.load_machine. rewrite Hnone. reflexivity.
  - intros [o' Ho']. rewrite Hnone in Ho'. discriminate.
Qed.

Lemma deleted_machine_dangles_witness :
  Heap.delVM 0%nat
    [Some (Heap.Machine (Heap.mkStruct 0 0 bytecode 1%nat 0 (-1)));
     Some (Heap.Doubles (malloc_doubles STACK_SIZE no_junk))] =
    Heap.HOk tt [None; None] [] /\
  Heap.delVM 0%nat [None; None] = Heap.HUndef (Heap.Dangling 0%nat) [].
Proof.
  assert (H : Heap.delVM 0%nat
                [Some (Heap.Machine (Heap.mkStruct 0 0 bytecode 1%nat 0 (-1)));
                 Some (Heap.Doubles (malloc_doubles STACK_SIZE no_junk))] =
              Heap.HOk tt [None; None] []) by reflexivity.
  split; [exact H|].
  exact (proj1 (deleted_machine_dangles LittleEndian 0%nat _ _ _ H)).
Defined.

(** X15: [main] deletes its first machine twice.  The first three programs
    run and print (1.0, then the two [DCONST] operands as the host reads
    them); then [delVM(vm)] is called where [vm3] was meant, on the machine
    deleted after the first run: [main] goes through a dangling pointer
    there, which is undefined behaviour.  What [main] does from there on is
    not determined by its text (an allocator that hands the freed block out
    again lets it go on). *)
Theorem main_deletes_first_machine_twice host junk h :
  Heap.main host junk h =
  Heap.HUndef (Heap.Dangling (length h))
    [PrintDouble 1;
     PrintDouble (memcpy_double host [x3f; xf0; x00; x00; x00; x00; x00; x00]);
     PrintDouble (memcpy_double host [x00; x00; x00; x00; x00; x00; xf0; x3f])].
Proof.
  unfold Heap.main.
  rewrite lifetime_then. cbv zeta.
  assert (E1 : execute host bytecode (junk 0%nat) =
               mkOutcome (Exit 0) [PrintDouble 1]
                         (machine (execute host bytecode (junk 0%nat))) 5)
    by (vm_compute; reflexivity).
  rewrite E1. cbn [result_of output].
  rewrite lifetime_then. cbv zeta.
  assert (E2 : result_of (execute host bytecode2 (junk 1%nat)) = Exit 0 /\
               output (execute host bytecode2 (junk 1%nat)) =
               [PrintDouble (memcpy_double host
                               [x3f; xf0; x00; x00; x00; x00; x00; x00])])
    by (destruct host; vm_compute; split; reflexivity).
  destruct E2 as [-> ->].
  set (h2 := (h ++ [None; None]) ++ [None; None]).
  rewrite (hbind_HOk _ _ _ _ _ _ (newVM_heap bytecode3 (junk 2%nat) h2)), after_nil.
  pose proof (run_heap host h2
                (Heap.mkStruct 0%float 0%float bytecode3 (S (length h2)) 0 (-1))
                (malloc_doubles STACK_SIZE (junk 2%nat)) eq_refl) as Hrun.
  change (run_machine host (Heap.view _ _))
    with (execute host bytecode3 (junk 2%nat)) in Hrun.
  assert (E3 : result_of (execute host bytecode3 (junk 2%nat)) = Exit 0 /\
               output (execute host bytecode3 (junk 2%nat)) =
               [PrintDouble (memcpy_double host
                               [x00; x00; x00; x00; x00; x00; xf0; x3f])])
    by (destruct host; vm_compute; split; reflexivity).
  destruct E3 as [E3r E3o]. cbv zeta in Hrun. rewrite E3r, E3o in Hrun.
  rewrite (hbind_HOk _ _ _ _ _ _ Hrun).
  erewrite hbind_HUndef; [reflexivity|].
  unfold Heap.delVM. apply hbind_HUndef. unfold Heap.load_machine.
  assert (Hl : (h ++ [None; None]) !! length h = Some (@None Heap.object))
    by apply lookup_pair_fst.
  unfold h2. rewrite <- !app_assoc.
  rewrite lookup_app_r by lia. rewrite Nat.sub_diag. reflexivity.
Qed.

(** ** How a run returns *)

Lemma report_app o pre :
  report (mkOutcome (result_of o) (pre ++ output o) (machine o) (S (decoded o)))
  = report o \/ output o = [].
Proof.
  destruct (output o) as [|e out] eqn:Ho; [right; reflexivity|left].
  unfold report. cbn [result_of output]. rewrite Ho.
  rewrite last_app. destruct (last (e :: out)) eqn:Hl; [reflexivity|].
  apply last_None in Hl. discriminate.
Qed.

Lemma run_return_cause host fuel : forall vm status,
  result_of (run host fuel vm) = Exit status ->
  return_cause (run host fuel vm) status /\
  (status = EXIT_FAILURE -> output (run host fuel vm) <> []).
Proof.
  induction fuel as [|fuel IH]; intros vm status; cbn [run]; [discriminate|].
  destruct (NCODE vm) as [b vm1 o1|f o1] eqn:Hn; [|discriminate].
  apply NCODE_inv in Hn as (Hb & _ & -> & ->).
  destruct (instr host (uchar b) _) as [[|st] vm2 o2|f o2] eqn:Hi;
    [| |discriminate].
  - cbn [result_of app]. intros Hr. destruct (IH vm2 status Hr) as [Hc Hne].
    split.
    + unfold return_cause in *. cbn [machine].
      destruct (report_app (run host fuel vm2) o2) as [-> | Hnil]; [exact Hc|].
      destruct Hc as [(-> & Hf & Hrep)|[(-> & _)|(-> & _)]].
      * left. split; [reflexivity|]. split; [exact Hf|].
        unfold report in *. cbn [result_of] in *. rewrite Hr in *. reflexivity.
      * exfalso. apply Hne; auto.
      * exfalso. apply Hne; auto.
    + intros Hs. cbn [output]. specialize (Hne Hs).
      destruct (output (run host fuel vm2)); [contradiction|].
      destruct o2; discriminate.
  - cbn [result_of]. intros Hr. injection Hr as ->.
    pose proof (instr_output host _ _ _ _ _ Hi) as Hout.
    assert (Hne : uchar b <> Op.DCONST).
    { cbn in Hout. destruct Hout as [(_ & -> & _)|[(_ & -> & _)|(_ & Hno & _)]];
        try discriminate.
      intros Heq. apply Hno. rewrite Heq. cbn. tauto. }
    pose proof (instr_keeps_pc host _ Hne _ _ _ _ Hi) as Hpc.
    pose proof (instr_keeps_code host _ _ _ _ _ Hi) as Hcode.
    cbn [pc code set_pc] in Hpc, Hcode.
    assert (Hlast : last_fetched vm2 = Some b).
    { unfold last_fetched. rewrite Hpc, Hcode.
      replace (pc vm + 1 - 1) with (pc vm) by lia. exact Hb. }
    unfold return_cause. cbn [machine output app].
    destruct Hout as [(-> & Hop & ->)|[(-> & Hop & ->)|(-> & Hno & ->)]].
    + split; [|discriminate]. left. rewrite Hlast.
      rewrite (uchar_inj b x00 Hop). auto.
    + split; [|discriminate]. right. left. rewrite Hlast.
      rewrite (uchar_inj b x64 Hop). auto.
    + split; [|discriminate]. right. right. split; [reflexivity|].
      exists b. auto.
Qed.



(** ** Runs of the same bytes *)

Lemma fresh_runs_agree host prog junk1 junk2 fuel :
  result_of (run host fuel (newVM prog junk1)) =
    result_of (run host fuel (newVM prog junk2)) /\
  output (run host fuel (newVM prog junk1)) =
    output (run host fuel (newVM prog junk2)).
Proof.
  destruct (agree_run host fuel _ _ (agree_newVM prog junk1 junk2))
    as (Hr & Ho & _).
  auto.
Qed.

(** A run that is defined to its end returned, and the caller is told how. *)
Lemma defined_execute_reported host prog junk :
  defined (execute host prog junk) ->
  exists status r,
    result_of (execute host prog junk) = Exit status /\
    report (execute host prog junk) = Some r.
Proof.
  intros Hdef. unfold execute in *.
  assert (Hrun : result_of (run host (S (length prog)) (newVM prog junk))
                 <> Running)
    by (apply run_bound; rewrite remaining_newVM; lia).
  destruct (result_of (run host (S (length prog)) (newVM prog junk)))
    as [status|f|] eqn:Hr.
  - exists status.
    destruct (run_return_cause host _ _ _ Hr) as [Hc _].
    destruct Hc as [(_ & _ & Hrep)|[(_ & _ & Hrep)|(_ & b & _ & _ & Hrep)]];
      eauto.
  - exfalso. exact (Hdef f Hr).
  - contradiction.
Qed.

(** C9, as the code has it: for every byte sequence whose run on a fresh
    machine stays inside the machine's arrays to its end, every run of it on a
    fresh machine prints the same and returns the same, whatever the machine
    found in its newly allocated stack array: nothing of an earlier run can
    reach a later one.  (A run that leaves its arrays works on memory outside
    the machine, and what it prints is not fixed by the bytes.) *)
Theorem defined_runs_are_determined host prog junk :
  defined (execute host prog junk) ->
  determined host prog /\
  forall junk',
    defined (execute host prog junk') /\
    result_of (execute host prog junk') = result_of (execute host prog junk) /\
    output (execute host prog junk') = output (execute host prog junk) /\
    report (execute host prog junk') = report (execute host prog junk).
Proof.
  intros Hdef.
  assert (Hsame : forall junk',
             result_of (execute host prog junk') =
               result_of (execute host prog junk) /\
             output (execute host prog junk') =
               output (execute host prog junk))
    by (intros junk'; apply fresh_runs_agree).
  assert (Hrep : forall junk',
             report (execute host prog junk') = report (execute host prog junk)).
  { intros junk'. destruct (Hsame junk') as [Hr Ho].
    unfold report. rewrite Hr, Ho. reflexivity. }
  destruct (defined_execute_reported host prog junk Hdef)
    as (status & r & _ & Hr).
  split.
  - exists (output (execute host prog junk)), r. intros junk'.
    split; [apply Hsame | rewrite Hrep; exact Hr].
  - intros junk'. destruct (Hsame junk') as [Hres Hout].
    split; [|auto].
    intros f. rewrite Hres. apply Hdef.
Qed.

Lemma defined_runs_are_determined_witness :
  defined (execute LittleEndian bytecode4 no_junk) /\
  determined LittleEndian bytecode4 /\
  output (execute LittleEndian bytecode4 (fun n => Z.ldexp 1 (Z.of_nat n))) =
    [PrintDouble (-0.5)].
Proof.
  assert (Hd : defined (execute LittleEndian bytecode4 no_junk))
    by (intros f; vm_compute; discriminate).
  destruct (defined_runs_are_determined LittleEndian bytecode4 no_junk Hd)
    as [Hdet Hall].
  split; [exact Hd|]. split; [exact Hdet|].
  exact (proj1 (proj2 (proj2 (Hall (fun n => Z.ldexp 1 (Z.of_nat n)))))).
Defined.

(** C9 as stated fails: the program [NOP] alone runs off the end of its code
    on every fresh machine, so its bytes do not fix what the run prints or how
    it ends: no result is told to the caller. *)
Lemma nop_alone_is_not_determined :
  result_of (execute LittleEndian [xf0] no_junk) =
    Undefined (CodeOutOfBounds 1 1) /\
  ~ determined LittleEndian [xf0].
Proof.
  split; [reflexivity|].
  intros (out & r & H). destruct (H no_junk) as [_ Hr].
  vm_compute in Hr. discriminate.
Qed.
